(** * Snake: a shallow embedding of [snake.py] and its simulation core.

    The game is a single Python file.  The embedding follows it function by
    function: module constants, the helpers [clamp] and [key_for_record],
    the classes [Snake], [Food] and [Game], and the four per-state loops of
    [Game.run].

    Conventions.
    - Python [int] is [Z]; [//] and [%] are [Z.div] and [Z.modulo] (both
      floor towards minus infinity for a positive divisor, as in Python).
    - Python [float] is idealised as a rational [Q].  Every float the game
      computes is either a multiple of one half (the tick rates), a
      millisecond count divided by 1000, or a difference of such numbers;
      rounding is not modelled.  The tick rates are exact in floats; the
      accumulator of [play_loop] is not, so the number of ticks of a frame
      can differ from the source's where a float subtraction rounds: the
      statements below speak of the tests and subtractions of the loop one
      by one, not of that number.  The [OverflowError] of an int
      too large to convert to a float is not modelled either: see
      [float_int_bound].
    - The [records] dict is a [gmap string Z]; [Snake.occupies] is a [gset].
    - An exception is a value [Raise e] of the type [result].
    - [random.choice], [random.random] and [time.time] are inputs: every
      call site receives its own value, so all outcomes are covered.
    - Sound playback, drawing and the save file are outside the model; the
      [SFX] flags [enabled] / [ok] and the entry [save["sound"]] are kept. *)

From Stdlib Require Import ZArith QArith Qround Lia Lqa.
From stdpp Require Import base option list gmap strings.

Local Open Scope Z_scope.

(** ** Exceptions *)

Inductive exn := IndexError | ZeroDivisionError.

Inductive result (A : Type) :=
| Ok (a : A)
| Raise (e : exn).
Arguments Ok {A} a.
Arguments Raise {A} e.

#[global] Instance result_ret : MRet result := fun A a => Ok a.

#[global] Instance result_bind : MBind result := fun A B k m =>
  match m with
  | Ok a => k a
  | Raise e => Raise e
  end.

(** ** Module constants *)

Definition WIDTH : Z := 640.
Definition HEIGHT : Z := 480.
Definition CELL : Z := 20.
Definition GRID_W : Z := WIDTH / CELL.
Definition GRID_H : Z := HEIGHT / CELL.

Definition GOLD_CHANCE : Q := 1 # 12.
Definition GOLD_LIFETIME : Q := 7.

Definition SCORE_NORMAL : Z := 10.
Definition SCORE_GOLD : Z := 30.

Inductive Mode := Easy | Normal | Hard.

Definition BASE_FPS (m : Mode) : Q :=
  match m with Easy => 8 | Normal => 10 | Hard => 12 end.

Definition MAX_FPS_CAP (m : Mode) : Q :=
  match m with Easy => 20 | Normal => 24 | Hard => 28 end.

Definition SPEED_STEP_EVERY_SCORE : Z := 5.
Definition SPEED_INCREMENT : Q := 1 # 2.

(** ** Utilities *)

Definition Vec2 : Type := Z * Z.

(** [a < b] on floats, as a boolean. *)
Definition Qltb (a b : Q) : bool := if Qlt_le_dec a b then true else false.

(** Python's two-argument [min] and [max] return the first argument unless
    the second is strictly smaller (resp. larger). *)
Definition py_min (a b : Q) : Q := if Qltb b a then b else a.
Definition py_max (a b : Q) : Q := if Qltb a b then b else a.

Definition clamp (n lo hi : Q) : Q := py_max lo (py_min hi n).

Definition mode_name (m : Mode) : string :=
  match m with Easy => "easy" | Normal => "normal" | Hard => "hard" end.

Definition key_for_record (mode : Mode) (wrap_on : bool) : string :=
  mode_name mode +:+ "_" +:+ (if wrap_on then "on" else "off").

(** ** Game models: directions and the snake *)

Definition UP : Vec2 := (0, -1).
Definition DOWN : Vec2 := (0, 1).
Definition LEFT : Vec2 := (-1, 0).
Definition RIGHT : Vec2 := (1, 0).

Definition opposite (a b : Vec2) : bool :=
  (a.1 =? - b.1) && (a.2 =? - b.2).

Module Snake.

Record t := mk { body : list Vec2; dir : Vec2 }.

(** [__init__]: [range(length)] pushes [(start[0] - i, start[1])] on the
    left end of the deque, for [i = 0, 1, ...]. *)
Definition init (start : Vec2) (length : nat) (direction : Vec2) : t :=
  {| body := fold_left (fun b i => (start.1 - Z.of_nat i, start.2) :: b)
                       (seq 0 length) [];
     dir := direction |}.

(** The property [head] is [self.body[0]]. *)
Definition head (s : t) : result Vec2 :=
  match body s with
  | [] => Raise IndexError
  | h :: _ => Ok h
  end.

Definition turn (newdir : Vec2) (s : t) : t :=
  if opposite (dir s) newdir then s
  else {| body := body s; dir := newdir |}.

Definition next_head (s : t) : result Vec2 :=
  h ← head s;
  Ok (h.1 + (dir s).1, h.2 + (dir s).2).

(** [appendleft] the next head, then [pop] the right end unless growing. *)
Definition move (grow : bool) (s : t) : result t :=
  n ← next_head s;
  let b := n :: body s in
  Ok {| body := if grow then b else removelast b; dir := dir s |}.

Definition hits_self (s : t) : result bool :=
  h ← head s;
  Ok (bool_decide (h ∈ tail (body s))).

Definition occupies (s : t) : gset Vec2 := list_to_set (body s).

End Snake.

(** ** Food *)

Inductive Kind := KNormal | KGold.

#[global] Instance Kind_eq_dec : EqDecision Kind.
Proof. solve_decision. Defined.

Record Food := mkFood { pos : Vec2; kind : Kind; spawn_time : Q }.

(** ** Inputs from outside: events, random draws, the clock *)

Inductive Key :=
| K_ESCAPE | K_RETURN | K_KP_ENTER
| K_UP | K_DOWN | K_LEFT | K_RIGHT
| K_w | K_a | K_s | K_d
| K_p | K_r | K_m
| K_other.

(** A pygame event: [QUIT], [KEYDOWN] with its key, or any other type. *)
Inductive Event := QUIT | KEYDOWN (key : Key) | OTHER_EVENT.

(** What one call of [spawn_food] reads from outside: the index chosen by
    [random.choice], the value of [random.random()] and of [time.time()]. *)
Record Draw := mkDraw { d_choice : nat; d_random : Q; d_time : Q }.

(** What one call of [step_logic] reads from outside: [now = time.time()],
    its own [random.random()], and the draws of its (at most two) calls of
    [spawn_food]. *)
Record Rand := mkRand { now : Q; roll : Q; spawn1 : Draw; spawn2 : Draw }.

(** What one frame reads from outside: the event queue, the milliseconds
    returned by [clock.tick(60)], a draw for the reset triggered by the
    [i]-th event, and the inputs of the [i]-th logic tick. *)
Record Frame := mkFrame {
  events : list Event;
  tick_ms : Z;
  reset_draw : nat -> Draw;
  tick_rand : nat -> Rand
}.

Inductive State := Menu | Playing | Paused | GameOver.

Inductive MenuItem := Start | ModeItem | WrapItem | SoundItem | QuitItem.

(** ** The game *)

Module Game.

(** The attributes of [Game] that the logic reads or writes.  [save_sound]
    is [self.save["sound"]]; [sound_enabled] and [sound_ok] are the two
    flags of [self.sound]. *)
Record t := mk {
  mode : Mode;
  wrap_on : bool;
  state : State;
  save_sound : bool;
  sound_enabled : bool;
  sound_ok : bool;
  records : gmap string Z;
  snake : Snake.t;
  score : Z;
  current_fps : Q;
  logic_acc : Q;
  game_over_reason : string;
  food : option Food;
  best : Z;
  menu_index : Z
}.

Definition set_mode (v : Mode) (g : t) : t :=
  mk v (wrap_on g) (state g) (save_sound g) (sound_enabled g) (sound_ok g)
    (records g) (snake g) (score g) (current_fps g) (logic_acc g)
    (game_over_reason g) (food g) (best g) (menu_index g).

Definition set_wrap_on (v : bool) (g : t) : t :=
  mk (mode g) v (state g) (save_sound g) (sound_enabled g) (sound_ok g)
    (records g) (snake g) (score g) (current_fps g) (logic_acc g)
    (game_over_reason g) (food g) (best g) (menu_index g).

Definition set_state (v : State) (g : t) : t :=
  mk (mode g) (wrap_on g) v (save_sound g) (sound_enabled g) (sound_ok g)
    (records g) (snake g) (score g) (current_fps g) (logic_acc g)
    (game_over_reason g) (food g) (best g) (menu_index g).

Definition set_save_sound (v : bool) (g : t) : t :=
  mk (mode g) (wrap_on g) (state g) v (sound_enabled g) (sound_ok g)
    (records g) (snake g) (score g) (current_fps g) (logic_acc g)
    (game_over_reason g) (food g) (best g) (menu_index g).

Definition set_sound_enabled (v : bool) (g : t) : t :=
  mk (mode g) (wrap_on g) (state g) (save_sound g) v (sound_ok g)
    (records g) (snake g) (score g) (current_fps g) (logic_acc g)
    (game_over_reason g) (food g) (best g) (menu_index g).

Definition set_sound_ok (v : bool) (g : t) : t :=
  mk (mode g) (wrap_on g) (state g) (save_sound g) (sound_enabled g) v
    (records g) (snake g) (score g) (current_fps g) (logic_acc g)
    (game_over_reason g) (food g) (best g) (menu_index g).

Definition set_records (v : gmap string Z) (g : t) : t :=
  mk (mode g) (wrap_on g) (state g) (save_sound g) (sound_enabled g)
    (sound_ok g) v (snake g) (score g) (current_fps g) (logic_acc g)
    (game_over_reason g) (food g) (best g) (menu_index g).

Definition set_snake (v : Snake.t) (g : t) : t :=
  mk (mode g) (wrap_on g) (state g) (save_sound g) (sound_enabled g)
    (sound_ok g) (records g) v (score g) (current_fps g) (logic_acc g)
    (game_over_reason g) (food g) (best g) (menu_index g).

Definition set_score (v : Z) (g : t) : t :=
  mk (mode g) (wrap_on g) (state g) (save_sound g) (sound_enabled g)
    (sound_ok g) (records g) (snake g) v (current_fps g) (logic_acc g)
    (game_over_reason g) (food g) (best g) (menu_index g).

Definition set_current_fps (v : Q) (g : t) : t :=
  mk (mode g) (wrap_on g) (state g) (save_sound g) (sound_enabled g)
    (sound_ok g) (records g) (snake g) (score g) v (logic_acc g)
    (game_over_reason g) (food g) (best g) (menu_index g).

Definition set_logic_acc (v : Q) (g : t) : t :=
  mk (mode g) (wrap_on g) (state g) (save_sound g) (sound_enabled g)
    (sound_ok g) (records g) (snake g) (score g) (current_fps g) v
    (game_over_reason g) (food g) (best g) (menu_index g).

Definition set_game_over_reason (v : string) (g : t) : t :=
  mk (mode g) (wrap_on g) (state g) (save_sound g) (sound_enabled g)
    (sound_ok g) (records g) (snake g) (score g) (current_fps g)
    (logic_acc g) v (food g) (best g) (menu_index g).

Definition set_food (v : option Food) (g : t) : t :=
  mk (mode g) (wrap_on g) (state g) (save_sound g) (sound_enabled g)
    (sound_ok g) (records g) (snake g) (score g) (current_fps g)
    (logic_acc g) (game_over_reason g) v (best g) (menu_index g).

Definition set_best (v : Z) (g : t) : t :=
  mk (mode g) (wrap_on g) (state g) (save_sound g) (sound_enabled g)
    (sound_ok g) (records g) (snake g) (score g) (current_fps g)
    (logic_acc g) (game_over_reason g) (food g) v (menu_index g).

Definition set_menu_index (v : Z) (g : t) : t :=
  mk (mode g) (wrap_on g) (state g) (save_sound g) (sound_enabled g)
    (sound_ok g) (records g) (snake g) (score g) (current_fps g)
    (logic_acc g) (game_over_reason g) (food g) (best g) v.


(** *** Food *)

(** [[(x, y) for x in range(GRID_W) for y in range(GRID_H)]], column by
    column. *)
Definition grid_cells : list Vec2 :=
  x ← seqZ 0 GRID_W; y ← seqZ 0 GRID_H; [(x, y)].

Definition free_cells (s : Snake.t) : list Vec2 :=
  filter (fun c => c ∉ Snake.occupies s) grid_cells.

(** [spawn_food]: nothing happens on a full board; otherwise the cell is
    [free[d_choice]] and the kind is gold only when the three conjuncts of
    the source's test hold, the last one being [self.food is None]. *)
Definition spawn_food (d : Draw) (force_normal : bool) (g : t) : t :=
  let free := free_cells (snake g) in
  match free with
  | [] => g
  | c0 :: _ =>
      let p := default c0 (free !! (d_choice d `mod` length free)%nat) in
      if negb force_normal && Qltb (d_random d) GOLD_CHANCE
         && bool_decide (is_Some (food g) → False)
      then set_food (Some (mkFood p KGold (d_time d))) g
      else set_food (Some (mkFood p KNormal 0)) g
  end.

(** *** Saving *)

(** [persist] refreshes [save["sound"]]; [save["records"]] is the records
    dict itself, and writing the file is outside the model. *)
Definition persist (g : t) : t :=
  set_save_sound (sound_enabled g && sound_ok g) g.

(** *** Run state *)

(** [reset_run]; [full_reset] only decides whether the start sound plays. *)
Definition reset_run (d : Draw) (full_reset : bool) (g : t) : t :=
  let cx := GRID_W / 2 in
  let cy := GRID_H / 2 in
  let g := set_snake (Snake.init (cx, cy) 3 RIGHT) g in
  let g := set_score 0 g in
  let g := set_current_fps (BASE_FPS (mode g)) g in
  let g := set_logic_acc 0 g in
  let g := set_game_over_reason "" g in
  let g := set_food None g in
  let g := spawn_food d true g in
  set_best (default 0 (records g !! key_for_record (mode g) (wrap_on g))) g.

(** [SFX.__init__] and [Game.__init__]: [mixer_ok] tells whether
    [pygame.mixer.init()] succeeded; [cfg_sound] and [cfg_records] are the
    two entries of the loaded configuration. *)
Definition init (mode0 : Mode) (wrap0 : bool) (cfg_sound : bool)
    (cfg_records : gmap string Z) (mixer_ok : bool) (d : Draw) : t :=
  let on := cfg_sound && mixer_ok in
  reset_run d true
    (mk mode0 wrap0 Menu cfg_sound on on cfg_records
        (Snake.mk [] RIGHT) 0 0 0 "" None 0 0).

(** *** Input *)

Definition handle_turn_keys (key : Key) (g : t) : t :=
  match key with
  | K_UP | K_w => set_snake (Snake.turn UP (snake g)) g
  | K_DOWN | K_s => set_snake (Snake.turn DOWN (snake g)) g
  | K_LEFT | K_a => set_snake (Snake.turn LEFT (snake g)) g
  | K_RIGHT | K_d => set_snake (Snake.turn RIGHT (snake g)) g
  | _ => g
  end.

(** [SFX.toggle]. *)
Definition sound_toggle (g : t) : t :=
  set_sound_enabled (negb (sound_enabled g) && sound_ok g) g.

(** *** One logic step *)

Definition to_game_over (g : t) : t :=
  persist (set_state GameOver g).

(** The kind of the food at cell [c], if the food is there. *)
Definition eaten (c : Vec2) (g : t) : option Kind :=
  match food g with
  | Some f => if bool_decide (c = pos f) then Some (kind f) else None
  | None => None
  end.

(** The food bookkeeping that follows the move in [step_logic]. *)
Definition manage_food (r : Rand) (ate_kind : option Kind) (g : t) : t :=
  match ate_kind with
  | Some k =>
      if bool_decide (k = KNormal) && Qltb (roll r) GOLD_CHANCE then
        let g := spawn_food (spawn1 r) false g in
        match food g with
        | Some f =>
            match kind f with
            | KGold => set_food (Some (mkFood (pos f) KGold (now r))) g
            | KNormal => spawn_food (spawn2 r) true g
            end
        | None => spawn_food (spawn2 r) true g
        end
      else spawn_food (spawn1 r) true g
  | None =>
      match food g with
      | Some f =>
          if bool_decide (kind f = KGold)
             && Qltb GOLD_LIFETIME (now r - spawn_time f)%Q
          then spawn_food (spawn1 r) true g
          else g
      | None => g
      end
  end.

Definition speed_for (m : Mode) (score : Z) : Q :=
  let target_cap := MAX_FPS_CAP m in
  let inc_steps := score / SPEED_STEP_EVERY_SCORE in
  clamp (BASE_FPS m + inject_Z inc_steps * SPEED_INCREMENT)%Q (BASE_FPS m)
        target_cap.

Definition step_logic (r : Rand) (g : t) : result t :=
  n ← Snake.next_head (snake g);
  let '(nx, ny) := n in
  if negb (wrap_on g)
     && ((nx <? 0) || (nx >=? GRID_W) || (ny <? 0) || (ny >=? GRID_H))
  then Ok (to_game_over (set_game_over_reason "wall" g))
  else
    let c := if wrap_on g then (nx `mod` GRID_W, ny `mod` GRID_H)
             else (nx, ny) in
    let ate_kind := eaten c g in
    let g := match ate_kind with
             | Some KGold => set_score (score g + SCORE_GOLD) g
             | Some KNormal => set_score (score g + SCORE_NORMAL) g
             | None => g
             end in
    let grow := bool_decide (ate_kind ≠ None) in
    s1 ← Snake.move grow (snake g);
    s2 ← (if bool_decide (ate_kind = Some KGold) then Snake.move true s1
          else Ok s1);
    let g := set_snake s2 g in
    hit ← Snake.hits_self s2;
    if (hit : bool) then Ok (to_game_over (set_game_over_reason "self" g))
    else
      let g := manage_food r ate_kind g in
      let g := set_current_fps (speed_for (mode g) (score g)) g in
      if score g >? best g then
        let g := set_best (score g) g in
        Ok (set_records
              (<[key_for_record (mode g) (wrap_on g) := best g]> (records g))
              g)
      else Ok g.

(** *** Menu *)

Definition menu_items : list MenuItem :=
  [Start; ModeItem; WrapItem; SoundItem; QuitItem].

(** Python list indexing: negative indices count from the right end, and
    an index outside the list raises [IndexError]. *)
Definition py_index {A} (l : list A) (i : Z) : result A :=
  let n := Z.of_nat (length l) in
  let j := if i <? 0 then i + n else i in
  if (j <? 0) || (n <=? j) then Raise IndexError
  else match l !! Z.to_nat j with
       | Some a => Ok a
       | None => Raise IndexError
       end.

Definition mode_values : list Mode := [Easy; Normal; Hard].

(** [values.index(self.mode)]. *)
Definition mode_index (m : Mode) : Z :=
  match m with Easy => 0 | Normal => 1 | Hard => 2 end.

Definition delta (forward : bool) : Z := if forward then 1 else -1.

Definition menu_change_value (forward : bool) (g : t) : result t :=
  label ← py_index menu_items (menu_index g);
  match label with
  | Start | QuitItem => Ok g
  | ModeItem =>
      let idx := mode_index (mode g) in
      let idx := (idx + delta forward) `mod` Z.of_nat (length mode_values) in
      m ← py_index mode_values idx;
      let g := set_mode m g in
      let g := set_current_fps (BASE_FPS (mode g)) g in
      Ok (set_best
            (default 0 (records g !! key_for_record (mode g) (wrap_on g))) g)
  | WrapItem =>
      let idx := if wrap_on g then 1 else 0 in
      let idx := (idx + delta forward) `mod` 2 in
      let g := set_wrap_on (idx =? 1) g in
      Ok (set_best
            (default 0 (records g !! key_for_record (mode g) (wrap_on g))) g)
  | SoundItem =>
      let idx := if sound_enabled g && sound_ok g then 1 else 0 in
      let idx := (idx + delta forward) `mod` 2 in
      let desired_on := idx =? 1 in
      let g :=
        if desired_on && negb (sound_enabled g && sound_ok g)
        then set_sound_ok true (set_sound_enabled true g)
        else if negb desired_on then set_sound_enabled false g
        else g in
      let g := set_save_sound (sound_enabled g && sound_ok g) g in
      Ok (persist g)
  end.

(** *** The per-state loops

    Each loop body is one frame.  The [for] over the event queue is a
    recursion on the list; [Some b] is an early [return b], which drops
    the rest of the queue. *)

(** The [K_m] branch shared by [play_loop] and [pause_loop]. *)
Definition mute_key (g : t) : t :=
  let g := sound_toggle g in
  let g := set_save_sound (sound_enabled g) g in
  persist g.

Fixpoint play_events (draws : nat -> Draw) (i : nat) (evs : list Event)
    (g : t) : t * option bool :=
  match evs with
  | [] => (g, None)
  | QUIT :: _ => (g, Some false)
  | KEYDOWN K_ESCAPE :: _ => (set_state Menu g, Some true)
  | KEYDOWN K_p :: _ => (set_state Paused g, Some true)
  | KEYDOWN K_r :: evs' =>
      play_events draws (S i) evs' (reset_run (draws i) false g)
  | KEYDOWN K_m :: evs' => play_events draws (S i) evs' (mute_key g)
  | KEYDOWN key :: evs' =>
      play_events draws (S i) evs' (handle_turn_keys key g)
  | OTHER_EVENT :: evs' => play_events draws (S i) evs' g
  end.

(** [while self.logic_acc >= step: self.logic_acc -= step;
    self.step_logic()].  The loop is bounded by [fuel]; [None] means the
    fuel ran out before the test failed.  [i] counts the ticks of the
    frame. *)
Fixpoint drain (fuel : nat) (step : Q) (rs : nat -> Rand) (i : nat)
    (g : t) : option (result t) :=
  if Qle_bool step (logic_acc g) then
    match fuel with
    | O => None
    | S fuel' =>
        match step_logic (rs i) (set_logic_acc (logic_acc g - step)%Q g) with
        | Ok g' => drain fuel' step rs (S i) g'
        | Raise e => Some (Raise e)
        end
    end
  else Some (Ok g).

(** [play_loop]: [step] is bound once, before the [while]. *)
Definition play_loop (fuel : nat) (f : Frame) (g : t)
    : option (result (t * bool)) :=
  let dt := (inject_Z (tick_ms f) / 1000)%Q in
  match play_events (reset_draw f) 0 (events f) g with
  | (g, Some b) => Some (Ok (g, b))
  | (g, None) =>
      let g := set_logic_acc (logic_acc g + dt)%Q g in
      if Qeq_bool (current_fps g) 0 then Some (Raise ZeroDivisionError)
      else
        let step := (1 / current_fps g)%Q in
        match drain fuel step (tick_rand f) 0 g with
        | Some (Ok g) => Some (Ok (g, true))
        | Some (Raise e) => Some (Raise e)
        | None => None
        end
  end.

Fixpoint pause_events (evs : list Event) (g : t) : t * option bool :=
  match evs with
  | [] => (g, None)
  | QUIT :: _ => (g, Some false)
  | KEYDOWN K_ESCAPE :: _ | KEYDOWN K_p :: _ =>
      (set_state Playing g, Some true)
  | KEYDOWN K_m :: evs' => pause_events evs' (mute_key g)
  | _ :: evs' => pause_events evs' g
  end.

Definition pause_loop (f : Frame) (g : t) : t * bool :=
  match pause_events (events f) g with
  | (g, Some b) => (g, b)
  | (g, None) => (g, true)
  end.

Fixpoint gameover_events (draws : nat -> Draw) (i : nat) (evs : list Event)
    (g : t) : t * option bool :=
  match evs with
  | [] => (g, None)
  | QUIT :: _ => (g, Some false)
  | KEYDOWN K_ESCAPE :: _ => (set_state Menu g, Some true)
  | KEYDOWN K_r :: _ =>
      (set_state Playing (reset_run (draws i) false g), Some true)
  | _ :: evs' => gameover_events draws (S i) evs' g
  end.

Definition gameover_loop (f : Frame) (g : t) : t * bool :=
  match gameover_events (reset_draw f) 0 (events f) g with
  | (g, Some b) => (g, b)
  | (g, None) => (g, true)
  end.

Fixpoint menu_events (draws : nat -> Draw) (i : nat) (evs : list Event)
    (g : t) : result (t * option bool) :=
  match evs with
  | [] => Ok (g, None)
  | QUIT :: _ => Ok (g, Some false)
  | KEYDOWN K_ESCAPE :: _ => Ok (g, Some false)
  | KEYDOWN K_UP :: evs' =>
      let n := Z.of_nat (length menu_items) in
      menu_events draws (S i) evs'
        (set_menu_index ((menu_index g - 1) `mod` n) g)
  | KEYDOWN K_DOWN :: evs' =>
      let n := Z.of_nat (length menu_items) in
      menu_events draws (S i) evs'
        (set_menu_index ((menu_index g + 1) `mod` n) g)
  | KEYDOWN K_LEFT :: evs' =>
      g ← menu_change_value false g;
      menu_events draws (S i) evs' g
  | KEYDOWN K_RIGHT :: evs' =>
      g ← menu_change_value true g;
      menu_events draws (S i) evs' g
  | KEYDOWN K_RETURN :: evs' | KEYDOWN K_KP_ENTER :: evs' =>
      label ← py_index menu_items (menu_index g);
      match label with
      | Start =>
          Ok (set_state Playing (reset_run (draws i) true g), Some true)
      | QuitItem => Ok (g, Some false)
      | _ => menu_events draws (S i) evs' g
      end
  | _ :: evs' => menu_events draws (S i) evs' g
  end.

Definition menu_loop (f : Frame) (g : t) : result (t * bool) :=
  r ← menu_events (reset_draw f) 0 (events f) g;
  match r with
  | (g, Some b) => Ok (g, b)
  | (g, None) => Ok (g, true)
  end.

(** One iteration of the [while True] of [run]: the loop of the current
    state runs once; the boolean is false when [run] breaks out. *)
Definition run_frame (fuel : nat) (f : Frame) (g : t)
    : option (result (t * bool)) :=
  match state g with
  | Menu => Some (menu_loop f g)
  | Playing => play_loop fuel f g
  | Paused => Some (Ok (pause_loop f g))
  | GameOver => Some (Ok (gameover_loop f g))
  end.

End Game.

(** ** Reachable states *)

(** The states the process passes through between frames: the state built
    by [Game.__init__], and the state left by any frame after which [run]
    goes on. *)
Inductive reachable : Game.t -> Prop :=
| reach_init mode0 wrap0 cfg_sound cfg_records mixer_ok d :
    reachable (Game.init mode0 wrap0 cfg_sound cfg_records mixer_ok d)
| reach_frame g fuel f g' :
    reachable g ->
    Game.run_frame fuel f g = Some (Ok (g', true)) ->
    reachable g'.

(** Running a list of frames, for concrete traces. *)
Fixpoint run_frames (fuel : nat) (fs : list Frame) (g : Game.t)
    : option Game.t :=
  match fs with
  | [] => Some g
  | f :: fs' =>
      match Game.run_frame fuel f g with
      | Some (Ok (g', true)) => run_frames fuel fs' g'
      | _ => None
      end
  end.

(** ** Statement vocabulary *)

(** A cell of the grid, [0 <= x < GRID_W] and [0 <= y < GRID_H]. *)
Definition in_grid (c : Vec2) : Prop :=
  0 <= c.1 < GRID_W /\ 0 <= c.2 < GRID_H.

(** [records.get(key, 0)]. *)
Definition record_of (g : Game.t) (key : string) : Z :=
  default 0 (Game.records g !! key).

(** The key of the running configuration. *)
Definition active_key (g : Game.t) : string :=
  key_for_record (Game.mode g) (Game.wrap_on g).

(** Python multiplies an int by a float after converting the int to a
    float; the conversion raises [OverflowError] when the int is beyond the
    range of the floats, which ends a little below 2 ^ 1024.  Every int of
    magnitude at most [float_int_bound] converts, and so does its quotient
    by 5.  [Game.speed_for] has no such failure: statements about it for
    arbitrary scores are made within this bound. *)
Definition float_int_bound : Z := 2 ^ 1023.

(** Number of grid steps between two cells. *)
Definition cell_distance (a b : Vec2) : Z :=
  Z.abs (b.1 - a.1) + Z.abs (b.2 - a.2).

(** The four stages of [step_logic], named so that lemmas can speak about
    them; [step_logic_stages] below shows that [step_logic] is their
    composition. *)

(** The test of the [else] branch of the border handling. *)
Definition off_grid (n : Vec2) : bool :=
  (n.1 <? 0) || (n.1 >=? GRID_W) || (n.2 <? 0) || (n.2 >=? GRID_H).

(** The cell that is compared with the food: the next head, folded onto
    the grid in wrap mode. *)
Definition tick_cell (wrap : bool) (n : Vec2) : Vec2 :=
  if wrap then (n.1 `mod` GRID_W, n.2 `mod` GRID_H) else n.

Definition tick_scored (k : option Kind) (g : Game.t) : Game.t :=
  match k with
  | Some KGold => Game.set_score (Game.score g + SCORE_GOLD) g
  | Some KNormal => Game.set_score (Game.score g + SCORE_NORMAL) g
  | None => g
  end.

Definition tick_moved (k : option Kind) (s : Snake.t) : result Snake.t :=
  s1 ← Snake.move (bool_decide (k ≠ None)) s;
  if bool_decide (k = Some KGold) then Snake.move true s1 else Ok s1.

Definition tick_finish (r : Rand) (k : option Kind) (g : Game.t) : Game.t :=
  let g := Game.manage_food r k g in
  let g := Game.set_current_fps
             (Game.speed_for (Game.mode g) (Game.score g)) g in
  if Game.score g >? Game.best g then
    let g := Game.set_best (Game.score g) g in
    Game.set_records
      (<[key_for_record (Game.mode g) (Game.wrap_on g) := Game.best g]>
         (Game.records g)) g
  else g.

(** [n] iterations of the body of the [while] of [play_loop], with the
    step [step]: no test, just [logic_acc -= step; step_logic()]. *)
Fixpoint run_ticks (step : Q) (rs : nat -> Rand) (i n : nat) (g : Game.t)
    : result Game.t :=
  match n with
  | O => Ok g
  | S n' =>
      g' ← Game.step_logic (rs i)
             (Game.set_logic_acc (Game.logic_acc g - step)%Q g);
      run_ticks step rs (S i) n' g'
  end.

(** The invariant of the reachable states: the food is never gold, [best]
    is the stored record of the running configuration, and the snake has a
    head. *)
Record wf (g : Game.t) : Prop := mk_wf {
  wf_food : forall f, Game.food g = Some f -> kind f = KNormal;
  wf_best : Game.best g = record_of g (active_key g);
  wf_body : Snake.body (Game.snake g) <> []
}.

(** How the records table may differ between two states of one run: the
    configuration is the same, the score did not go down, and an entry
    either is untouched or belongs to the running configuration and holds
    a score that is larger than the entry it replaces. *)
Definition records_raised (g g' : Game.t) : Prop :=
  Game.mode g' = Game.mode g /\ Game.wrap_on g' = Game.wrap_on g
  /\ Game.score g <= Game.score g'
  /\ forall key,
       Game.records g' !! key = Game.records g !! key
       \/ (key = active_key g
           /\ exists s, Game.records g' !! key = Some s
                        /\ record_of g key < s <= Game.score g').

(** The ticks of a run, in order: after each call of [step_logic] that
    returns, the key of the configuration in force and the score.  The
    three functions follow [Game.drain], [Game.play_loop] inside
    [Game.run_frame], and [run_frames]; the menu, pause and game-over loops
    run no tick. *)
Fixpoint drain_scores (fuel : nat) (step : Q) (rs : nat -> Rand) (i : nat)
    (g : Game.t) : list (string * Z) :=
  if Qle_bool step (Game.logic_acc g) then
    match fuel with
    | O => []
    | S fuel' =>
        match Game.step_logic (rs i)
                (Game.set_logic_acc (Game.logic_acc g - step)%Q g) with
        | Ok g' =>
            (active_key g', Game.score g')
            :: drain_scores fuel' step rs (S i) g'
        | Raise _ => []
        end
    end
  else [].

Definition frame_scores (fuel : nat) (f : Frame) (g : Game.t)
    : list (string * Z) :=
  match Game.state g with
  | Playing =>
      match Game.play_events (reset_draw f) 0 (events f) g with
      | (g1, None) =>
          let g2 :=
            Game.set_logic_acc
              (Game.logic_acc g1 + inject_Z (tick_ms f) / 1000)%Q g1 in
          if Qeq_bool (Game.current_fps g2) 0 then []
          else drain_scores fuel (1 / Game.current_fps g2) (tick_rand f) 0 g2
      | (_, Some _) => []
      end
  | _ => []
  end.

Fixpoint run_scores (fuel : nat) (fs : list Frame) (g : Game.t)
    : list (string * Z) :=
  match fs with
  | [] => []
  | f :: fs' =>
      match Game.run_frame fuel f g with
      | Some (Ok (g', true)) => frame_scores fuel f g ++ run_scores fuel fs' g'
      | _ => []
      end
  end.

(** How the records table may differ after the ticks [log]: an entry is
    untouched, or it holds a larger number than before, and that number is
    the score after one of the ticks, run under the key of the entry. *)
Definition records_earned (log : list (string * Z)) (g g' : Game.t) : Prop :=
  forall key,
    Game.records g' !! key = Game.records g !! key
    \/ exists s, Game.records g' !! key = Some s
                 /\ record_of g key < s /\ (key, s) ∈ log.

(** Event handlers that leave the configuration and the table alone. *)
Definition quiet (g g' : Game.t) : Prop :=
  wf g' /\ Game.records g' = Game.records g /\ Game.mode g' = Game.mode g
  /\ Game.wrap_on g' = Game.wrap_on g.

(** ** The drain loop as the specification words it

    Section 4.5 of the specification says that each iteration of the loop
    recomputes the step size from the live tick rate.  [spec_drain] and
    [spec_play_loop] follow those words; they differ from [Game.drain] and
    [Game.play_loop] in this one point, and are compared with them below. *)



(** ** Concrete runs *)

(** The draw that takes the [n]-th free cell; its random value 1 fails
    every gold roll. *)
Definition pick (n : nat) : Draw := mkDraw n 1 0.

(** A frame with the given event queue and clock reading, in which every
    spawn takes the [n]-th free cell. *)
Definition frame_of (evs : list Event) (ms : Z) (n : nat) : Frame :=
  mkFrame evs ms (fun _ => pick n) (fun _ => mkRand 0 1 (pick n) (pick 0)).

Definition no_wrap_game : Game.t := Game.init Normal false true ∅ true (pick 0).

Definition wrap_game : Game.t := Game.init Normal true true ∅ true (pick 0).

(** Start from the menu (the food lands on (0, 0)), turn up for one tick,
    then run right along row 11 up to the last column. *)
Definition edge_trace : list Frame :=
  [ frame_of [KEYDOWN K_RETURN] 16 0;
    frame_of [KEYDOWN K_UP] 100 0;
    frame_of [KEYDOWN K_RIGHT] 1750 0 ].

(** Start from the menu with the food on (14, 11), straight above the
    head. *)
Definition start_frame : Frame := frame_of [KEYDOWN K_RETURN] 16 347.

(** In wrap mode: eat at (14, 11) and (14, 10), go up and leave the grid
    through the top, eating the food on (14, 23) when the head is stored
    at (14, -1); the next food lands on (14, 23) again.  Then go right,
    up and left, so that one step down leads back to (14, -1). *)
Definition bite_trace : list Frame :=
  [ start_frame;
    frame_of [KEYDOWN K_UP] 100 346;
    frame_of [] 100 356 ]
  ++ replicate 10 (frame_of [] 84 0)
  ++ [ frame_of [] 84 354;
       frame_of [KEYDOWN K_RIGHT] 84 0;
       frame_of [KEYDOWN K_UP] 84 0;
       frame_of [KEYDOWN K_LEFT] 84 0 ].

(** The state after a tick, and after a list of frames; the state is
    returned unchanged when the run does not complete. *)
Definition after_tick (r : Rand) (g : Game.t) : Game.t :=
  match Game.step_logic r g with
  | Ok g' => g'
  | Raise _ => g
  end.

Definition after_frames (fuel : nat) (fs : list Frame) (g : Game.t) : Game.t :=
  default g (run_frames fuel fs g).

(** The state left by one frame of a loop, [g] itself when the frame does
    not complete. *)
Definition frame_result (o : option (result (Game.t * bool))) (g : Game.t)
    : Game.t :=
  match o with
  | Some (Ok (g', _)) => g'
  | _ => g
  end.

(** The inputs of a tick in which every gold roll fails and every spawn
    takes the first free cell. *)
Definition tick0 : Rand := mkRand 0 1 (pick 0) (pick 0).

(** The inputs of a tick in which every gold roll succeeds. *)
Definition lucky_tick : Rand := mkRand 5 0 (mkDraw 0 0 5) (mkDraw 0 0 5).

(** Without wrap: start from the menu, turn up and run to the top row. *)
Definition wall_trace : list Frame :=
  [ frame_of [KEYDOWN K_RETURN] 16 0;
    frame_of [KEYDOWN K_UP] 1250 0 ].

(** The frame that follows [start_frame]: turn up with 195 ms on the
    clock; the food eaten at (14, 11) is replaced on (14, 10). *)
Definition eat_frame : Frame := frame_of [KEYDOWN K_UP] 195 346.


(** The state left by [eat_frame]. *)
Definition eat_frame_result : Game.t :=
  frame_result
    (Game.run_frame 5 eat_frame (after_frames 5 [start_frame] wrap_game))
    wrap_game.

(** A state with a gold food straight ahead of the head: the start state
    without wrap, turned up, with the food slot overwritten. *)
Definition gold_state : Game.t :=
  Game.set_food (Some (mkFood (14, 11) KGold 0))
    (Game.handle_turn_keys K_UP (Game.set_state Playing no_wrap_game)).

(** A state with a normal food in the slot, head at (14, 12) turned up. *)
Definition fed_state : Game.t :=
  Game.handle_turn_keys K_UP (Game.set_state Playing no_wrap_game).

(** A state whose snake covers the whole grid. *)
Definition full_board_state : Game.t :=
  Game.set_snake (Snake.mk Game.grid_cells RIGHT) no_wrap_game.

(** The four directions of the keyboard. *)
Definition unit_dir (d : Vec2) : Prop :=
  d = UP \/ d = DOWN \/ d = LEFT \/ d = RIGHT.

(** Consecutive cells of a body are one grid step apart, in the stored
    coordinates. *)
Definition contiguous (l : list Vec2) : Prop :=
  forall (i : nat) (a b : Vec2),
    l !! i = Some a -> l !! S i = Some b -> cell_distance a b = 1.

(** The body that a tick stores, from the head [h], the direction [dv],
    the old body and what was eaten. *)
Definition moved_body (k : option Kind) (h dv : Vec2) (l : list Vec2)
    : list Vec2 :=
  match k with
  | None => removelast ((h.1 + dv.1, h.2 + dv.2) :: l)
  | Some KNormal => (h.1 + dv.1, h.2 + dv.2) :: l
  | Some KGold =>
      (h.1 + dv.1 + dv.1, h.2 + dv.2 + dv.2)
      :: (h.1 + dv.1, h.2 + dv.2) :: l
  end.

(** There is a food, and it lies on a cell of the grid. *)
Definition fed (g : Game.t) : Prop :=
  exists f, Game.food g = Some f /\ in_grid (pos f).

(** The snake has at least its three initial cells, and the score counts
    ten points for every cell gained. *)
Definition grown (g : Game.t) : Prop :=
  (3 <= length (Snake.body (Game.snake g)))%nat
  /\ Game.score g
     = 10 * (Z.of_nat (length (Snake.body (Game.snake g))) - 3).

(** The tick rate is within the bounds of the mode, and the menu cursor is
    on one of the five items. *)
Definition tuned (g : Game.t) : Prop :=
  (BASE_FPS (Game.mode g) <= Game.current_fps g
   <= MAX_FPS_CAP (Game.mode g))%Q
  /\ 0 <= Game.menu_index g < 5.

(** The snake heads in one of the four directions and its body is a
    path. *)
Definition on_track (g : Game.t) : Prop :=
  unit_dir (Snake.dir (Game.snake g))
  /\ contiguous (Snake.body (Game.snake g)).





(** The mode one step further in the list easy, normal, hard, cyclically;
    [forward = false] is one step back. *)
Definition mode_after (forward : bool) (m : Mode) : Mode :=
  match forward, m with
  | true, Easy => Normal | true, Normal => Hard | true, Hard => Easy
  | false, Easy => Hard | false, Normal => Easy | false, Hard => Normal
  end.

(** The states used to instantiate the properties below. *)
Definition bite_state : Game.t := after_frames 5 bite_trace wrap_game.

Definition wall_state : Game.t := after_frames 20 wall_trace no_wrap_game.

Definition mode_menu_state : Game.t := Game.set_menu_index 1 wrap_game.

Definition sound_menu_state : Game.t := Game.set_menu_index 3 wrap_game.

(** * Properties *)

Import Game.

(** ** [Snake] *)

Lemma opposite_neg (d : Vec2) : opposite d (- d.1, - d.2) = true.
Proof.
  unfold opposite; simpl.
  rewrite !Z.opp_involutive, !Z.eqb_refl. reflexivity.
Qed.

(** C8. Turning to the exact opposite of the current direction, that is to
    [(-dx, -dy)] when the direction is [(dx, dy)], leaves the direction of
    the snake as it was (and the body too). *)
Theorem turn_opposite_rejected (s : Snake.t) :
  Snake.turn (- (Snake.dir s).1, - (Snake.dir s).2) s = s
  /\ Snake.dir (Snake.turn (- (Snake.dir s).1, - (Snake.dir s).2) s)
     = Snake.dir s.
Proof.
  unfold Snake.turn. rewrite opposite_neg. split; reflexivity.
Qed.

Lemma head_next_head (s : Snake.t) (h : Vec2) :
  Snake.head s = Ok h ->
  Snake.next_head s = Ok (h.1 + (Snake.dir s).1, h.2 + (Snake.dir s).2).
Proof. unfold Snake.next_head. intros ->. reflexivity. Qed.

Lemma next_head_inv (s : Snake.t) (n : Vec2) :
  Snake.next_head s = Ok n ->
  exists h, Snake.head s = Ok h
            /\ n = (h.1 + (Snake.dir s).1, h.2 + (Snake.dir s).2).
Proof.
  unfold Snake.next_head. destruct (Snake.head s) as [h|e]; simpl.
  - intros [= <-]. eauto.
  - discriminate.
Qed.

Lemma move_ok (grow : bool) (s : Snake.t) (n : Vec2) :
  Snake.next_head s = Ok n ->
  Snake.move grow s
  = Ok (Snake.mk (if grow then n :: Snake.body s
                  else removelast (n :: Snake.body s)) (Snake.dir s)).
Proof. unfold Snake.move. intros ->. reflexivity. Qed.

Lemma head_nonempty (s : Snake.t) (h : Vec2) :
  Snake.head s = Ok h -> exists tl, Snake.body s = h :: tl.
Proof.
  unfold Snake.head. destruct (Snake.body s); [discriminate|].
  intros [= ->]. eauto.
Qed.

(** ** [spawn_food] *)

(** Either the board is full and nothing changes, or only the food slot is
    written. *)
Lemma spawn_food_cases (d : Draw) (b : bool) (g : Game.t) :
  spawn_food d b g = g
  \/ exists p,
       (spawn_food d b g = set_food (Some (mkFood p KNormal 0)) g)
       \/ (spawn_food d b g = set_food (Some (mkFood p KGold (d_time d))) g
           /\ b = false /\ Qltb (d_random d) GOLD_CHANCE = true
           /\ food g = None).
Proof.
  unfold spawn_food.
  destruct (free_cells (snake g)) as [|c0 l] eqn:Hfree; [left; reflexivity|].
  right.
  set (p := default c0 _). exists p.
  destruct b; simpl; [left; reflexivity|].
  destruct (Qltb (d_random d) GOLD_CHANCE); simpl; [|left; reflexivity].
  case_bool_decide as Hnone; [|left; reflexivity].
  right. repeat split.
  destruct (food g); [|reflexivity].
  exfalso. apply Hnone. eauto.
Qed.

(** [spawn_food] writes no attribute but [food]. *)
Lemma spawn_food_frame (d : Draw) (b : bool) (g : Game.t) :
  let g' := spawn_food d b g in
  mode g' = mode g /\ wrap_on g' = wrap_on g /\ state g' = state g
  /\ save_sound g' = save_sound g /\ sound_enabled g' = sound_enabled g
  /\ sound_ok g' = sound_ok g /\ records g' = records g
  /\ snake g' = snake g /\ score g' = score g
  /\ current_fps g' = current_fps g /\ logic_acc g' = logic_acc g
  /\ game_over_reason g' = game_over_reason g /\ best g' = best g
  /\ menu_index g' = menu_index g.
Proof.
  intros g'. subst g'.
  destruct (spawn_food_cases d b g) as [->|[p [->|[-> _]]]];
    repeat split; reflexivity.
Qed.

(** A forced spawn, or a spawn over an occupied food slot, never leaves a
    gold food that was not there before. *)
Lemma spawn_food_normal (d : Draw) (b : bool) (g : Game.t) (f : Food) :
  b = true \/ food g <> None ->
  (forall f0, food g = Some f0 -> kind f0 = KNormal) ->
  food (spawn_food d b g) = Some f -> kind f = KNormal.
Proof.
  intros Hb Hg.
  destruct (spawn_food_cases d b g) as [->|[p [->|[-> (Hf & _ & Hnone)]]]].
  - apply Hg.
  - simpl. intros [= <-]. reflexivity.
  - destruct Hb as [->|Hne]; [discriminate|]. contradiction.
Qed.

(** ** [reset_run] *)

(** The attributes after [reset_run], one by one. *)
Lemma reset_run_fields (d : Draw) (full_reset : bool) (g : Game.t) :
  let g' := reset_run d full_reset g in
  mode g' = mode g /\ wrap_on g' = wrap_on g /\ records g' = records g
  /\ state g' = state g /\ menu_index g' = menu_index g
  /\ save_sound g' = save_sound g /\ sound_enabled g' = sound_enabled g
  /\ sound_ok g' = sound_ok g
  /\ best g' = default 0 (records g !! key_for_record (mode g) (wrap_on g))
  /\ score g' = 0 /\ current_fps g' = BASE_FPS (mode g) /\ logic_acc g' = 0%Q
  /\ game_over_reason g' = ""
  /\ snake g' = Snake.init (GRID_W / 2, GRID_H / 2) 3 RIGHT.
Proof.
  intros g'. subst g'. unfold reset_run.
  match goal with
  | |- context [spawn_food d true ?g0] =>
      pose proof (spawn_food_frame d true g0) as Hf;
      set (g1 := spawn_food d true g0) in *
  end.
  simpl in Hf.
  destruct Hf as (Hm & Hw & Hst & Hss & Hse & Hso & Hr & Hsn & Hsc & Hfps
                  & Hacc & Hgo & Hb & Hmi).
  cbn [mode wrap_on records state menu_index save_sound sound_enabled
       sound_ok best score current_fps logic_acc game_over_reason snake
       set_best].
  rewrite Hm, Hw, Hr, Hst, Hmi, Hss, Hse, Hso, Hsc, Hfps, Hacc, Hgo, Hsn.
  repeat split; reflexivity.
Qed.

(** C10. [reset_run] leaves the mode, the wrap setting, the records table
    (and the game state, the menu cursor and the sound flags) as they were;
    it writes only snake, score, current_fps, logic_acc, game_over_reason,
    food and best, and the new best is the stored record of the active
    (mode, wrap) key, 0 when the key is absent. *)
Theorem reset_run_frame (d : Draw) (full_reset : bool) (g : Game.t) :
  let g' := reset_run d full_reset g in
  mode g' = mode g /\ wrap_on g' = wrap_on g /\ records g' = records g
  /\ state g' = state g /\ menu_index g' = menu_index g
  /\ save_sound g' = save_sound g /\ sound_enabled g' = sound_enabled g
  /\ sound_ok g' = sound_ok g
  /\ best g' = default 0 (records g !! key_for_record (mode g) (wrap_on g))
  /\ score g' = 0 /\ current_fps g' = BASE_FPS (mode g) /\ logic_acc g' = 0%Q
  /\ game_over_reason g' = ""
  /\ snake g' = Snake.init (GRID_W / 2, GRID_H / 2) 3 RIGHT.
Proof.
  intros g'. subst g'. unfold reset_run.
  match goal with
  | |- context [spawn_food d true ?g0] =>
      pose proof (spawn_food_frame d true g0) as Hf;
      set (g1 := spawn_food d true g0) in *
  end.
  simpl in Hf.
  destruct Hf as (Hm & Hw & Hst & Hss & Hse & Hso & Hr & Hsn & Hsc & Hfps
                  & Hacc & Hgo & Hb & Hmi).
  cbn [mode wrap_on records state menu_index save_sound sound_enabled
       sound_ok best score current_fps logic_acc game_over_reason snake
       set_best].
  rewrite Hm, Hw, Hr, Hst, Hmi, Hss, Hse, Hso, Hsc, Hfps, Hacc, Hgo, Hsn.
  repeat split; reflexivity.
Qed.

(** ** [step_logic] *)

Lemma step_logic_stages (r : Rand) (g : Game.t) :
  step_logic r g =
  n ← Snake.next_head (snake g);
  if negb (wrap_on g) && off_grid n
  then Ok (to_game_over (set_game_over_reason "wall" g))
  else
    let k := eaten (tick_cell (wrap_on g) n) g in
    s2 ← tick_moved k (snake g);
    hit ← Snake.hits_self s2;
    if (hit : bool)
    then Ok (to_game_over
               (set_game_over_reason "self" (set_snake s2 (tick_scored k g))))
    else Ok (tick_finish r k (set_snake s2 (tick_scored k g))).
Proof.
  unfold step_logic.
  destruct (Snake.next_head (snake g)) as [[nx ny]|e]; [|reflexivity].
  cbn [mbind result_bind]. unfold off_grid. cbn [fst snd].
  destruct (negb (wrap_on g) && _); [reflexivity|].
  unfold tick_cell. cbn [fst snd].
  set (c := if wrap_on g then _ else _).
  unfold tick_moved, tick_scored.
  destruct (eaten c g) as [[|]|]; cbn [snake set_score];
    (destruct (Snake.move _ (snake g)) as [s1|e]; [|reflexivity]);
    cbn [mbind result_bind];
    (destruct (if bool_decide _ then _ else _) as [s2|e]; [|reflexivity]);
    cbn [mbind result_bind];
    (destruct (Snake.hits_self s2) as [[|]|e]; [reflexivity| |reflexivity]);
    cbn [mbind result_bind]; unfold tick_finish; cbv zeta;
    match goal with |- context [?a >? ?b] => destruct (a >? b) end;
    reflexivity.
Qed.

Lemma off_grid_spec (n : Vec2) : off_grid n = true <-> ~ in_grid n.
Proof.
  unfold off_grid, in_grid. rewrite !Z.geb_leb.
  destruct (Z.ltb_spec n.1 0), (Z.leb_spec GRID_W n.1),
    (Z.ltb_spec n.2 0), (Z.leb_spec GRID_H n.2);
    simpl; split; intros; try discriminate; try lia; try reflexivity.
Qed.

Lemma off_grid_false (n : Vec2) : off_grid n = false <-> in_grid n.
Proof.
  unfold off_grid, in_grid. rewrite !Z.geb_leb.
  destruct (Z.ltb_spec n.1 0), (Z.leb_spec GRID_W n.1),
    (Z.ltb_spec n.2 0), (Z.leb_spec GRID_H n.2);
    simpl; split; intros; try discriminate; try lia; try reflexivity.
Qed.

Lemma tick_scored_frame (k : option Kind) (g : Game.t) :
  let g' := tick_scored k g in
  mode g' = mode g /\ wrap_on g' = wrap_on g /\ state g' = state g
  /\ records g' = records g /\ snake g' = snake g /\ food g' = food g
  /\ best g' = best g /\ logic_acc g' = logic_acc g
  /\ current_fps g' = current_fps g /\ score g <= score g'.
Proof.
  destruct k as [[|]|]; unfold tick_scored, SCORE_GOLD, SCORE_NORMAL;
    simpl; repeat split; try reflexivity; lia.
Qed.

Lemma tick_moved_ok (k : option Kind) (s : Snake.t) (h : Vec2) :
  Snake.head s = Ok h ->
  exists s2, tick_moved k s = Ok s2 /\ Snake.dir s2 = Snake.dir s
    /\ match k with
       | None =>
           Snake.body s2
           = removelast ((h.1 + (Snake.dir s).1, h.2 + (Snake.dir s).2)
                         :: Snake.body s)
       | Some KNormal =>
           Snake.body s2
           = (h.1 + (Snake.dir s).1, h.2 + (Snake.dir s).2) :: Snake.body s
       | Some KGold =>
           Snake.body s2
           = (h.1 + (Snake.dir s).1 + (Snake.dir s).1,
              h.2 + (Snake.dir s).2 + (Snake.dir s).2)
             :: (h.1 + (Snake.dir s).1, h.2 + (Snake.dir s).2)
             :: Snake.body s
       end.
Proof.
  intros Hh. unfold tick_moved.
  rewrite (move_ok _ s _ (head_next_head s h Hh)).
  cbn [mbind result_bind].
  destruct k as [[|]|]; simpl; eauto.
Qed.

Lemma tick_moved_nonempty (k : option Kind) (s s2 : Snake.t) :
  tick_moved k s = Ok s2 ->
  Snake.body s2 <> []
  /\ (1 < length (Snake.body s) -> 1 < length (Snake.body s2))%nat.
Proof.
  unfold tick_moved, Snake.move.
  destruct (Snake.next_head s) as [n|] eqn:Hn; [|discriminate].
  destruct (next_head_inv _ _ Hn) as (h & Hh & _).
  destruct (head_nonempty _ _ Hh) as (tl & Hb).
  cbn [mbind result_bind].
  destruct k as [[|]|]; simpl.
  - intros [= <-]. simpl. split; [discriminate|lia].
  - unfold Snake.next_head, Snake.head. simpl.
    intros [= <-]. simpl. split; [discriminate|lia].
  - rewrite Hb. intros [= <-]. cbn [Snake.body].
    destruct tl as [|x tl]; [split; [discriminate|simpl; lia]|].
    split; [discriminate|].
    intros _. change (removelast (n :: h :: x :: tl))
      with (n :: h :: removelast (x :: tl)). simpl. lia.
Qed.

Lemma hits_self_ok (s : Snake.t) :
  Snake.body s <> [] -> exists hit, Snake.hits_self s = Ok hit.
Proof.
  unfold Snake.hits_self, Snake.head.
  destruct (Snake.body s); [contradiction|]. intros _.
  cbn [mbind result_bind]. eauto.
Qed.

(** C6. With wrap mode off, a tick whose next head is outside the grid
    returns normally, sets the game-over reason to "wall" and the state to
    GameOver, and leaves the snake, the food and the score (and the
    records, best and tick rate) exactly as they were. *)
Theorem wall_collision_tick (r : Rand) (g : Game.t) (n : Vec2) :
  wrap_on g = false ->
  Snake.next_head (snake g) = Ok n ->
  ~ in_grid n ->
  exists g', step_logic r g = Ok g'
    /\ state g' = GameOver /\ game_over_reason g' = "wall"
    /\ snake g' = snake g /\ food g' = food g /\ score g' = score g
    /\ records g' = records g /\ best g' = best g
    /\ current_fps g' = current_fps g.
Proof.
  intros Hw Hn Hout. rewrite step_logic_stages, Hn, Hw.
  apply off_grid_spec in Hout. cbn [mbind result_bind negb andb].
  rewrite Hout. eexists. split; [reflexivity|].
  repeat split; reflexivity.
Qed.

Lemma eaten_food (c : Vec2) (g : Game.t) (k : Kind) :
  eaten c g = Some k ->
  exists f, food g = Some f /\ kind f = k /\ pos f = c.
Proof.
  unfold eaten. destruct (food g) as [f|]; [|discriminate].
  case_bool_decide; [|discriminate]. intros [= <-]. eauto.
Qed.

Lemma manage_food_frame (r : Rand) (k : option Kind) (g : Game.t) :
  let g' := manage_food r k g in
  mode g' = mode g /\ wrap_on g' = wrap_on g /\ state g' = state g
  /\ records g' = records g /\ snake g' = snake g /\ score g' = score g
  /\ best g' = best g /\ logic_acc g' = logic_acc g
  /\ current_fps g' = current_fps g.
Proof.
  intros g'. subst g'. unfold manage_food.
  repeat match goal with
         | |- context [spawn_food ?d ?b ?g0] =>
             let H := fresh "H" in
             pose proof (spawn_food_frame d b g0) as H; simpl in H;
             let g1 := fresh "g" in
             set (g1 := spawn_food d b g0) in *; clearbody g1
         end.
  repeat case_match; simpl; intuition congruence.
Qed.

Lemma manage_food_normal (r : Rand) (k : option Kind) (g : Game.t) :
  (k <> None -> food g <> None) ->
  (forall f, food g = Some f -> kind f = KNormal) ->
  forall f, food (manage_food r k g) = Some f -> kind f = KNormal.
Proof.
  intros Hk Hg f. unfold manage_food.
  destruct k as [k|].
  - specialize (Hk ltac:(discriminate)).
    destruct (bool_decide (k = KNormal) && Qltb (roll r) GOLD_CHANCE).
    + pose proof (fun f1 => spawn_food_normal (spawn1 r) false g f1
                              (or_intror Hk) Hg) as H1.
      destruct (food (spawn_food (spawn1 r) false g)) as [f1|] eqn:Hf1.
      * specialize (H1 f1 eq_refl). rewrite H1.
        apply spawn_food_normal; [left; reflexivity|].
        intros f0. rewrite Hf1. intros [= <-]. exact H1.
      * apply spawn_food_normal; [left; reflexivity|].
        intros f0. rewrite Hf1. discriminate.
    + apply spawn_food_normal; [left; reflexivity|exact Hg].
  - destruct (food g) as [f0|] eqn:Hf0; [|rewrite Hf0; discriminate].
    destruct (_ && _).
    + apply spawn_food_normal; [left; reflexivity|].
      rewrite Hf0. exact Hg.
    + rewrite Hf0. apply Hg.
Qed.

(** The structure of a tick from a state whose snake has a head: it never
    raises, and it takes one of three exits. *)
Lemma step_logic_cases (r : Rand) (g : Game.t) :
  Snake.body (snake g) <> [] ->
  exists n, Snake.next_head (snake g) = Ok n
    /\ ((wrap_on g = false /\ ~ in_grid n
         /\ step_logic r g
            = Ok (to_game_over (set_game_over_reason "wall" g)))
        \/ ((wrap_on g = true \/ in_grid n)
            /\ exists s2 hit,
                 tick_moved (eaten (tick_cell (wrap_on g) n) g) (snake g)
                 = Ok s2
                 /\ Snake.hits_self s2 = Ok hit
                 /\ step_logic r g
                    = Ok (let g1 := set_snake s2
                                      (tick_scored
                                         (eaten (tick_cell (wrap_on g) n) g)
                                         g) in
                          if hit
                          then to_game_over
                                 (set_game_over_reason "self" g1)
                          else tick_finish r
                                 (eaten (tick_cell (wrap_on g) n) g) g1))).
Proof.
  intros Hne.
  destruct (Snake.body (snake g)) as [|h tl] eqn:Hb; [contradiction|].
  assert (Hh : Snake.head (snake g) = Ok h)
    by (unfold Snake.head; rewrite Hb; reflexivity).
  pose proof (head_next_head _ _ Hh) as Hn.
  eexists. split; [exact Hn|].
  rewrite step_logic_stages, Hn. cbn [mbind result_bind].
  set (n := (_, _)) in *.
  destruct (wrap_on g) eqn:Hw; cbn [negb andb].
  - right. split; [left; reflexivity|].
    destruct (tick_moved_ok (eaten (tick_cell true n) g) _ _ Hh)
      as (s2 & Hs2 & _ & _).
    rewrite Hs2. cbn [mbind result_bind].
    destruct (tick_moved_nonempty _ _ _ Hs2) as [Hne2 _].
    destruct (hits_self_ok _ Hne2) as [hit Hhit].
    rewrite Hhit. cbn [mbind result_bind].
    exists s2, hit. repeat split; [exact Hhit|].
    destruct hit; reflexivity.
  - destruct (off_grid n) eqn:Hoff.
    + left. apply off_grid_spec in Hoff. repeat split; assumption.
    + right. apply off_grid_false in Hoff. split; [right; exact Hoff|].
      destruct (tick_moved_ok (eaten (tick_cell false n) g) _ _ Hh)
        as (s2 & Hs2 & _ & _).
      rewrite Hs2. cbn [mbind result_bind].
      destruct (tick_moved_nonempty _ _ _ Hs2) as [Hne2 _].
      destruct (hits_self_ok _ Hne2) as [hit Hhit].
      rewrite Hhit. cbn [mbind result_bind].
      exists s2, hit. repeat split; [exact Hhit|].
      destruct hit; reflexivity.
Qed.

(** ** The invariant and the records table *)

Lemma records_raised_refl (g : Game.t) : records_raised g g.
Proof. unfold records_raised. repeat split; try lia. intros; left; auto. Qed.

Lemma records_raised_le (g g' : Game.t) (key : string) :
  records_raised g g' -> record_of g key <= record_of g' key.
Proof.
  intros (_ & _ & _ & H). unfold record_of in *.
  destruct (H key) as [->|(_ & s & Hs & Hlt & _)]; [lia|].
  rewrite Hs in *. simpl. lia.
Qed.

Lemma records_raised_trans (g1 g2 g3 : Game.t) :
  records_raised g1 g2 -> records_raised g2 g3 -> records_raised g1 g3.
Proof.
  intros H12 H23.
  pose proof (fun k => records_raised_le _ _ k H12) as Hle.
  destruct H12 as (Hm1 & Hw1 & Hs1 & H1), H23 as (Hm2 & Hw2 & Hs2 & H2).
  assert (Hk : active_key g2 = active_key g1)
    by (unfold active_key; congruence).
  repeat split; try congruence; try lia.
  intros key.
  destruct (H2 key) as [Heq|(-> & s & Hs & Hlt & Hsc)].
  - rewrite Heq.
    destruct (H1 key) as [?|(? & s & Hs & Hlt & Hsc)]; [left; auto|].
    right. split; [assumption|]. exists s. repeat split; [assumption|lia..].
  - right. split; [assumption|]. exists s.
    specialize (Hle (active_key g2)). repeat split; [assumption|lia..].
Qed.

Lemma tick_finish_ok (r : Rand) (k : option Kind) (g : Game.t) :
  (k <> None -> food g <> None) ->
  wf g ->
  let g' := tick_finish r k g in
  wf g' /\ records_raised g g' /\ logic_acc g' = logic_acc g
  /\ state g' = state g /\ snake g' = snake g /\ score g' = score g
  /\ current_fps g' = speed_for (mode g') (score g').
Proof.
  intros Hk [Hfood Hbest Hbody] g'. subst g'. unfold tick_finish.
  pose proof (manage_food_frame r k g) as Hfr. simpl in Hfr.
  pose proof (manage_food_normal r k g Hk Hfood) as Hn.
  set (g1 := manage_food r k g) in *. clearbody g1.
  destruct Hfr as (Hm & Hw & Hst & Hr & Hsn & Hsc & Hb & Hacc & Hfps).
  cbv zeta. cbn [score best mode wrap_on records set_current_fps set_best].
  destruct (score g1 >? best g1) eqn:Hgt.
  - apply Z.gtb_lt in Hgt.
    repeat split; cbn; try congruence.
    + exact Hn.
    + unfold record_of, active_key. cbn.
      rewrite lookup_insert_eq. reflexivity.
    + lia.
    + intros key. unfold active_key, record_of in *.
      rewrite Hm, Hw, Hr.
      destruct (decide (key = key_for_record (mode g) (wrap_on g)))
        as [->|Hne].
      * right. split; [reflexivity|]. exists (score g1).
        rewrite lookup_insert_eq. split; [reflexivity|].
        rewrite <- Hbest. lia.
      * left. rewrite lookup_insert_ne by congruence. reflexivity.
  - repeat split; cbn; try congruence.
    + exact Hn.
    + unfold record_of, active_key in *. cbn. congruence.
    + lia.
    + intros key. left. congruence.
Qed.

(** A tick preserves the invariant, only raises records, and does not
    touch the accumulator. *)
Lemma step_logic_ok (r : Rand) (g : Game.t) :
  wf g ->
  exists g', step_logic r g = Ok g'
    /\ wf g' /\ records_raised g g' /\ logic_acc g' = logic_acc g
    /\ (state g' = state g \/ state g' = GameOver)
    /\ (state g' = Playing ->
        current_fps g' = speed_for (mode g') (score g')).
Proof.
  intros Hwf. pose proof Hwf as [Hfood Hbest Hbody].
  destruct (step_logic_cases r g Hbody)
    as (n & Hn & [(Hw & Hout & ->)|(_ & s2 & hit & Hs2 & Hhit & ->)]).
  - eexists. split; [reflexivity|].
    split; [split; assumption|].
    split; [repeat split; cbn; try lia; intros; left; reflexivity|].
    split; [reflexivity|].
    split; [right; reflexivity|discriminate].
  - set (k := eaten (tick_cell (wrap_on g) n) g) in *.
    pose proof (tick_scored_frame k g) as Hfr. simpl in Hfr.
    destruct Hfr as (Hm & Hw & Hst & Hr & Hsn & Hf & Hb & Hacc & Hfps & Hsc).
    destruct (tick_moved_nonempty _ _ _ Hs2) as [Hne2 _].
    assert (Hwf1 : wf (set_snake s2 (tick_scored k g))).
    { split; cbn.
      - rewrite Hf. exact Hfood.
      - unfold record_of, active_key in *. cbn. congruence.
      - exact Hne2. }
    assert (Hr1 : records_raised g (set_snake s2 (tick_scored k g))).
    { repeat split; cbn; try congruence.
      intros key; left; congruence. }
    eexists. split; [reflexivity|]. cbv zeta.
    destruct hit.
    + split; [destruct Hwf1; split; assumption|].
      split; [exact Hr1|].
      split; [exact Hacc|].
      split; [right; reflexivity|discriminate].
    + assert (Hk : k <> None ->
                   food (set_snake s2 (tick_scored k g)) <> None).
      { cbn. rewrite Hf. destruct k as [k0|] eqn:Hk0; [|congruence].
        destruct (eaten_food _ _ _ Hk0) as (f & -> & _). discriminate. }
      destruct (tick_finish_ok r k _ Hk Hwf1)
        as (Hwf2 & Hr2 & Hacc2 & Hst2 & _ & _ & Hfps2).
      split; [exact Hwf2|].
      split; [eapply records_raised_trans; [exact Hr1|exact Hr2]|].
      split; [rewrite Hacc2; exact Hacc|].
      split; [left; rewrite Hst2; exact Hst|].
      intros _. exact Hfps2.
Qed.

(** ** The loops *)

Lemma reset_run_food (d : Draw) (b : bool) (g : Game.t) (f : Food) :
  food (reset_run d b g) = Some f -> kind f = KNormal.
Proof.
  assert (Hset : forall v g0, food (set_best v g0) = food g0)
    by reflexivity.
  assert (Hnone : forall g0, food (set_food None g0) = None)
    by reflexivity.
  unfold reset_run. cbv zeta. rewrite Hset.
  apply spawn_food_normal; [left; reflexivity|].
  intros f0. rewrite Hnone. discriminate.
Qed.

Lemma reset_run_wf (d : Draw) (b : bool) (g : Game.t) :
  wf (reset_run d b g).
Proof.
  pose proof (reset_run_fields d b g) as H. cbv zeta in H.
  destruct H as (Hm & Hw & Hr & _ & _ & _ & _ & _ & Hb & _ & _ & _ & _ & Hs).
  split.
  - intros f. apply reset_run_food.
  - unfold record_of, active_key. rewrite Hb, Hm, Hw, Hr. reflexivity.
  - rewrite Hs. discriminate.
Qed.

Lemma quiet_refl (g : Game.t) : wf g -> quiet g g.
Proof. intros H. repeat split; apply H. Qed.

Lemma quiet_trans (g1 g2 g3 : Game.t) :
  quiet g1 g2 -> quiet g2 g3 -> quiet g1 g3.
Proof. unfold quiet. intuition congruence. Qed.

Lemma quiet_reset (d : Draw) (b : bool) (g : Game.t) :
  quiet g (reset_run d b g).
Proof.
  pose proof (reset_run_fields d b g) as H. cbv zeta in H.
  split; [apply reset_run_wf|]. intuition.
Qed.

Lemma quiet_set_state (st : State) (g : Game.t) :
  wf g -> quiet g (set_state st g).
Proof. intros [H1 H2 H3]. repeat split; assumption. Qed.

Lemma quiet_mute_key (g : Game.t) : wf g -> quiet g (mute_key g).
Proof. intros [H1 H2 H3]. repeat split; assumption. Qed.

Lemma turn_body (d : Vec2) (s : Snake.t) :
  Snake.body (Snake.turn d s) = Snake.body s.
Proof. unfold Snake.turn. destruct (opposite _ _); reflexivity. Qed.

Lemma quiet_turn_keys (key : Key) (g : Game.t) :
  wf g -> quiet g (handle_turn_keys key g).
Proof.
  intros [H1 H2 H3].
  destruct key; repeat split; cbn; try assumption;
    rewrite turn_body; assumption.
Qed.

Lemma play_events_quiet (draws : nat -> Draw) (evs : list Event) :
  forall i g g' ret,
    wf g -> play_events draws i evs g = (g', ret) -> quiet g g'.
Proof.
  induction evs as [|e evs IH]; intros i g g' ret Hwf; cbn [play_events].
  - intros [= <- _]. apply quiet_refl, Hwf.
  - destruct e as [|key|].
    + intros [= <- _]. apply quiet_refl, Hwf.
    + destruct key;
        try (intros [= <- _]; apply quiet_set_state, Hwf);
        try (intros H;
             match type of H with
             | play_events _ _ _ ?g1 = _ =>
                 assert (Hq : quiet g g1)
                   by first [ apply quiet_reset
                            | apply quiet_mute_key, Hwf
                            | apply (quiet_turn_keys _ _ Hwf) ];
                 eapply quiet_trans; [exact Hq|];
                 eapply IH; [apply Hq|exact H]
             end).
    + apply IH, Hwf.
Qed.

Lemma pause_events_quiet (evs : list Event) :
  forall g g' ret, wf g -> pause_events evs g = (g', ret) -> quiet g g'.
Proof.
  induction evs as [|e evs IH]; intros g g' ret Hwf; cbn [pause_events].
  - intros [= <- _]. apply quiet_refl, Hwf.
  - destruct e as [|key|].
    + intros [= <- _]. apply quiet_refl, Hwf.
    + destruct key;
        try (intros [= <- _]; apply quiet_set_state, Hwf);
        try (apply IH, Hwf).
      intros H. eapply quiet_trans; [apply quiet_mute_key, Hwf|].
      eapply IH; [apply quiet_mute_key, Hwf|exact H].
    + apply IH, Hwf.
Qed.

Lemma gameover_events_quiet (draws : nat -> Draw) (evs : list Event) :
  forall i g g' ret,
    wf g -> gameover_events draws i evs g = (g', ret) -> quiet g g'.
Proof.
  induction evs as [|e evs IH]; intros i g g' ret Hwf;
    cbn [gameover_events].
  - intros [= <- _]. apply quiet_refl, Hwf.
  - destruct e as [|key|].
    + intros [= <- _]. apply quiet_refl, Hwf.
    + destruct key;
        try (intros [= <- _]; apply quiet_set_state, Hwf);
        try (apply IH, Hwf).
      intros [= <- _].
      eapply quiet_trans; [apply quiet_reset|].
      apply quiet_set_state, reset_run_wf.
    + apply IH, Hwf.
Qed.

Lemma menu_change_value_ok (forward : bool) (g g' : Game.t) :
  wf g -> menu_change_value forward g = Ok g' ->
  wf g' /\ records g' = records g.
Proof.
  intros [H1 H2 H3]. unfold menu_change_value.
  destruct (py_index menu_items (menu_index g)) as [label|]; [|discriminate].
  cbn [mbind result_bind].
  destruct label.
  - intros [= <-]. repeat split; assumption.
  - destruct (py_index mode_values _) as [m|]; [|discriminate].
    cbn [mbind result_bind]. intros [= <-].
    repeat split; assumption || reflexivity.
  - intros [= <-]. repeat split; assumption || reflexivity.
  - intros [= <-]. repeat case_match; repeat split; assumption.
  - intros [= <-]. repeat split; assumption.
Qed.

Lemma menu_events_ok (draws : nat -> Draw) (evs : list Event) :
  forall i g g' ret,
    wf g -> menu_events draws i evs g = Ok (g', ret) ->
    wf g' /\ records g' = records g.
Proof.
  induction evs as [|e evs IH]; intros i g g' ret Hwf; cbn [menu_events].
  - intros [= <- _]. split; [exact Hwf|reflexivity].
  - assert (Hset : forall v, wf (set_menu_index v g)).
    { intros v. destruct Hwf. split; assumption. }
    assert (Hchg : forall fw,
               (g0 ← menu_change_value fw g; menu_events draws (S i) evs g0)
               = Ok (g', ret) ->
               wf g' /\ records g' = records g).
    { intros fw.
      destruct (menu_change_value fw g) as [g0|] eqn:Hc; [|discriminate].
      cbn [mbind result_bind]. intros H.
      destruct (menu_change_value_ok _ _ _ Hwf Hc) as [Hw0 Hr0].
      destruct (IH _ _ _ _ Hw0 H) as [Hw1 Hr1].
      split; [exact Hw1|congruence]. }
    assert (Hret :
              (label ← py_index menu_items (menu_index g);
               match label with
               | Start =>
                   Ok (set_state Playing (reset_run (draws i) true g),
                       Some true)
               | QuitItem => Ok (g, Some false)
               | _ => menu_events draws (S i) evs g
               end) = Ok (g', ret) ->
              wf g' /\ records g' = records g).
    { destruct (py_index menu_items (menu_index g)) as [label|];
        [|discriminate].
      cbn [mbind result_bind].
      destruct label; try apply IH, Hwf.
      - intros [= <- _].
        destruct (quiet_reset (draws i) true g) as (Hw0 & Hr0 & _).
        destruct (quiet_set_state Playing _ Hw0) as (Hw1 & Hr1 & _).
        split; [exact Hw1|]. rewrite Hr1. exact Hr0.
      - intros [= <- _]. split; [exact Hwf|reflexivity]. }
    destruct e as [|key|].
    + intros [= <- _]. split; [exact Hwf|reflexivity].
    + destruct key; try apply IH, Hwf; try apply Hchg; try apply Hret.
      * intros [= <- _]. split; [exact Hwf|reflexivity].
      * intros H. apply (IH _ _ _ _ (Hset _) H).
      * intros H. apply (IH _ _ _ _ (Hset _) H).
    + apply IH, Hwf.
Qed.

Lemma drain_ok (step : Q) (rs : nat -> Rand) (fuel : nat) :
  forall i g r,
    wf g -> drain fuel step rs i g = Some r ->
    exists g', r = Ok g' /\ wf g' /\ records_raised g g'.
Proof.
  induction fuel as [|fuel IH]; intros i g r Hwf; cbn [drain];
    destruct (Qle_bool step (logic_acc g)).
  - discriminate.
  - intros [= <-]. eexists. split; [reflexivity|].
    split; [exact Hwf|apply records_raised_refl].
  - set (g0 := set_logic_acc (logic_acc g - step)%Q g).
    assert (Hwf0 : wf g0) by (destruct Hwf; split; assumption).
    destruct (step_logic_ok (rs i) g0 Hwf0)
      as (g1 & -> & Hwf1 & Hr1 & _).
    intros H. destruct (IH _ _ _ Hwf1 H) as (g' & -> & Hwf' & Hr').
    eexists. split; [reflexivity|]. split; [exact Hwf'|].
    eapply records_raised_trans; [|exact Hr']. exact Hr1.
  - intros [= <-]. eexists. split; [reflexivity|].
    split; [exact Hwf|apply records_raised_refl].
Qed.

(** What one frame may do: it keeps the invariant, and an entry of the
    table is untouched, or it is the entry of the configuration that runs
    during the frame and it now holds a larger score, one that the run has
    reached. *)
Lemma run_frame_ok (fuel : nat) (f : Frame) (g g' : Game.t) (b : bool) :
  wf g -> run_frame fuel f g = Some (Ok (g', b)) ->
  wf g'
  /\ forall key,
       records g' !! key = records g !! key
       \/ (key = active_key g /\ active_key g' = active_key g
           /\ exists s, records g' !! key = Some s
                        /\ record_of g key < s <= score g').
Proof.
  intros Hwf. unfold run_frame. destruct (state g).
  - (* menu_loop *)
    unfold menu_loop.
    destruct (menu_events _ _ _ _) as [[g1 ret]|e] eqn:He; [|discriminate].
    destruct (menu_events_ok _ _ _ _ _ _ Hwf He) as [Hw Hr].
    cbn [mbind result_bind].
    destruct ret; intros [= <- _]; (split; [exact Hw|]);
      intros key; left; congruence.
  - (* play_loop *)
    unfold play_loop.
    destruct (play_events _ _ _ _) as [g1 ret] eqn:He.
    destruct (play_events_quiet _ _ _ _ _ _ Hwf He) as (Hw1 & Hr1 & Hm1 & Hp1).
    destruct ret as [b1|].
    + intros [= <- _]. split; [exact Hw1|]. intros key; left; congruence.
    + set (g2 := set_logic_acc _ g1).
      assert (Hw2 : wf g2) by (destruct Hw1; split; assumption).
      destruct (Qeq_bool (current_fps g2) 0); [discriminate|].
      destruct (drain _ _ _ _ _) as [r|] eqn:Hd; [|discriminate].
      destruct (drain_ok _ _ _ _ _ _ Hw2 Hd) as (g3 & -> & Hw3 & Hr3).
      intros [= <- _]. split; [exact Hw3|].
      destruct Hr3 as (Hm3 & Hp3 & _ & Hk3).
      assert (Hk : active_key g2 = active_key g)
        by (unfold active_key; cbn; congruence).
      intros key. destruct (Hk3 key) as [Heq|(-> & s & Hs & Hlt)].
      * left. rewrite Heq. cbn. congruence.
      * rewrite Hk in *. right. split; [reflexivity|].
        split; [unfold active_key in *; cbn in *; congruence|].
        exists s. split; [exact Hs|].
        unfold record_of in *. cbn in Hlt. rewrite <- Hr1. exact Hlt.
  - (* pause_loop *)
    unfold pause_loop.
    destruct (pause_events _ _) as [g1 ret] eqn:He.
    destruct (pause_events_quiet _ _ _ _ Hwf He) as (Hw1 & Hr1 & _).
    destruct ret; intros [= <- _]; (split; [exact Hw1|]);
      intros key; left; congruence.
  - (* gameover_loop *)
    unfold gameover_loop.
    destruct (gameover_events _ _ _ _) as [g1 ret] eqn:He.
    destruct (gameover_events_quiet _ _ _ _ _ _ Hwf He) as (Hw1 & Hr1 & _).
    destruct ret; intros [= <- _]; (split; [exact Hw1|]);
      intros key; left; congruence.
Qed.

Lemma init_wf mode0 wrap0 cfg_sound cfg_records mixer_ok d :
  wf (Game.init mode0 wrap0 cfg_sound cfg_records mixer_ok d).
Proof. apply reset_run_wf. Qed.

Lemma reachable_wf (g : Game.t) : reachable g -> wf g.
Proof.
  induction 1 as [|g fuel f g' _ IH Hf]; [apply init_wf|].
  apply (run_frame_ok _ _ _ _ _ IH Hf).
Qed.

Lemma run_frames_reachable (fuel : nat) (fs : list Frame) :
  forall g g', reachable g -> run_frames fuel fs g = Some g' -> reachable g'.
Proof.
  induction fs as [|f fs IH]; intros g g' Hg; cbn [run_frames].
  - intros [= <-]. exact Hg.
  - destruct (run_frame fuel f g) as [[[g1 [|]]|]|] eqn:Hf; try discriminate.
    apply IH. eapply reach_frame; eassumption.
Qed.

(** C3. In every reachable state the food, when there is one, is of kind
    Normal: gold is never produced.  The reason is [spawn_food_normal]: a
    spawn makes gold only over an empty food slot and only when it is not
    forced, and the one call that is not forced runs while the food that
    was just eaten still fills the slot. *)
Theorem reachable_food_is_normal (g : Game.t) (f : Food) :
  reachable g -> food g = Some f -> kind f = KNormal.
Proof. intros Hg. apply (wf_food _ (reachable_wf _ Hg)). Qed.

(** ** The records table and the scores of the ticks *)

Lemma records_earned_same (g g' : Game.t) :
  records g' = records g -> records_earned [] g g'.
Proof. intros H key. left. rewrite H. reflexivity. Qed.

Lemma records_earned_le (log : list (string * Z)) (g g' : Game.t)
    (key : string) :
  records_earned log g g' -> record_of g key <= record_of g' key.
Proof.
  intros H. unfold record_of.
  destruct (H key) as [->|(s & -> & Hlt & _)]; [lia|].
  unfold record_of in Hlt. simpl. lia.
Qed.

Lemma records_earned_app (l1 l2 : list (string * Z)) (g1 g2 g3 : Game.t) :
  records_earned l1 g1 g2 -> records_earned l2 g2 g3 ->
  records_earned (l1 ++ l2) g1 g3.
Proof.
  intros H12 H23 key.
  pose proof (records_earned_le _ _ _ key H12) as Hle.
  destruct (H23 key) as [Heq|(s & Hs & Hlt & Hin)].
  - rewrite Heq. destruct (H12 key) as [?|(s & Hs & Hlt & Hin)];
      [left; assumption|].
    right. exists s. split; [exact Hs|]. split; [exact Hlt|].
    apply elem_of_app. left. exact Hin.
  - right. exists s. split; [exact Hs|]. split; [lia|].
    apply elem_of_app. right. exact Hin.
Qed.

(** The one write of the table: a tick that runs to its end with a score
    above [best] stores that score under the key in force. *)
Lemma step_logic_earned (r : Rand) (g g' : Game.t) :
  wf g -> step_logic r g = Ok g' ->
  records_earned [(active_key g', score g')] g g'.
Proof.
  intros Hwf Hstep. pose proof Hwf as [Hfood Hbest Hbody].
  destruct (step_logic_cases r g Hbody)
    as (n & Hn & [(Hw & Hout & Hg')|(_ & s2 & hit & Hs2 & Hhit & Hg')]);
    rewrite Hstep in Hg'; injection Hg' as ->.
  - intros key. left. reflexivity.
  - set (k := eaten (tick_cell (wrap_on g) n) g) in *.
    pose proof (tick_scored_frame k g) as Hfr. cbv zeta in Hfr.
    destruct Hfr as (Hm & Hw & _ & Hr & _ & _ & Hb & _).
    cbv zeta. destruct hit.
    + intros key. left. cbn. rewrite Hr. reflexivity.
    + set (g1 := set_snake s2 (tick_scored k g)).
      assert (Hm1 : mode g1 = mode g) by exact Hm.
      assert (Hw1 : wrap_on g1 = wrap_on g) by exact Hw.
      assert (Hr1 : records g1 = records g) by exact Hr.
      assert (Hb1 : best g1 = best g) by exact Hb.
      clearbody g1. unfold tick_finish.
      pose proof (manage_food_frame r k g1) as Hmf. cbv zeta in Hmf.
      set (g2 := manage_food r k g1) in *. clearbody g2.
      destruct Hmf as (Hm2 & Hw2 & _ & Hr2 & _ & Hsc2 & Hb2 & _).
      cbv zeta.
      cbn [score best mode wrap_on records set_current_fps set_best].
      destruct (score g2 >? best g2) eqn:Hgt.
      * apply Z.gtb_lt in Hgt. intros key.
        unfold active_key. cbn [mode wrap_on records score set_records
                                set_best set_current_fps].
        destruct (decide (key = key_for_record (mode g2) (wrap_on g2)))
          as [->|Hne].
        -- right. exists (score g2).
           rewrite lookup_insert_eq. split; [reflexivity|].
           split; [|apply list_elem_of_here].
           unfold record_of, active_key in *.
           rewrite Hm2, Hw2, Hm1, Hw1, <- Hbest, <- Hb1, <- Hb2. exact Hgt.
        -- left. rewrite lookup_insert_ne by congruence. congruence.
      * intros key. left. cbn. congruence.
Qed.

Lemma drain_earned (step : Q) (rs : nat -> Rand) (fuel : nat) :
  forall i g g',
    wf g -> drain fuel step rs i g = Some (Ok g') ->
    records_earned (drain_scores fuel step rs i g) g g'.
Proof.
  induction fuel as [|fuel IH]; intros i g g' Hwf;
    cbn [drain drain_scores];
    destruct (Qle_bool step (logic_acc g)); try discriminate;
    try (intros [= <-]; apply records_earned_same; reflexivity).
  set (g0 := set_logic_acc (logic_acc g - step)%Q g).
  assert (Hwf0 : wf g0) by (destruct Hwf; split; assumption).
  destruct (step_logic_ok (rs i) g0 Hwf0) as (g1 & Hstep & Hwf1 & _).
  rewrite Hstep. intros Hd.
  apply (records_earned_app [_] _ g g1 g').
  - apply (step_logic_earned _ _ _ Hwf0 Hstep).
  - apply (IH _ _ _ Hwf1 Hd).
Qed.

Lemma run_frame_earned (fuel : nat) (f : Frame) (g g' : Game.t) (b : bool) :
  wf g -> run_frame fuel f g = Some (Ok (g', b)) ->
  records_earned (frame_scores fuel f g) g g'.
Proof.
  intros Hwf. unfold run_frame, frame_scores. destruct (state g).
  - unfold menu_loop.
    destruct (menu_events _ _ _ _) as [[g1 ret]|e] eqn:He; [|discriminate].
    destruct (menu_events_ok _ _ _ _ _ _ Hwf He) as [_ Hr].
    cbn [mbind result_bind].
    destruct ret; intros [= <- _]; apply records_earned_same, Hr.
  - unfold play_loop.
    destruct (play_events _ _ _ _) as [g1 ret] eqn:He.
    destruct (play_events_quiet _ _ _ _ _ _ Hwf He) as (Hw1 & Hr1 & _).
    destruct ret as [b1|].
    + intros [= <- _]. apply records_earned_same, Hr1.
    + cbv zeta.
      set (g2 := set_logic_acc _ g1).
      assert (Hw2 : wf g2) by (destruct Hw1; split; assumption).
      destruct (Qeq_bool (current_fps g2) 0); [discriminate|].
      destruct (drain _ _ _ _ _) as [[g3|]|] eqn:Hd; try discriminate.
      intros [= <- _].
      apply (records_earned_app [] _ g g2 g3).
      * apply records_earned_same, Hr1.
      * apply (drain_earned _ _ _ _ _ _ Hw2 Hd).
  - unfold pause_loop.
    destruct (pause_events _ _) as [g1 ret] eqn:He.
    destruct (pause_events_quiet _ _ _ _ Hwf He) as (_ & Hr1 & _).
    destruct ret; intros [= <- _]; apply records_earned_same, Hr1.
  - unfold gameover_loop.
    destruct (gameover_events _ _ _ _) as [g1 ret] eqn:He.
    destruct (gameover_events_quiet _ _ _ _ _ _ Hwf He) as (_ & Hr1 & _).
    destruct ret; intros [= <- _]; apply records_earned_same, Hr1.
Qed.

Lemma run_frames_earned (fuel : nat) (fs : list Frame) :
  forall g g',
    reachable g -> run_frames fuel fs g = Some g' ->
    records_earned (run_scores fuel fs g) g g'.
Proof.
  induction fs as [|f fs IH]; intros g g' Hg; cbn [run_frames run_scores].
  - intros [= <-]. apply records_earned_same. reflexivity.
  - destruct (run_frame fuel f g) as [[[g1 [|]]|]|] eqn:Hf; try discriminate.
    intros Hrun.
    apply (records_earned_app _ _ g g1 g').
    + apply (run_frame_earned _ _ _ _ _ (reachable_wf _ Hg) Hf).
    + apply IH; [eapply reach_frame; eassumption|exact Hrun].
Qed.

(** C9. From a reachable state [g], over any sequence of frames (ticks,
    run resets, restarts, menu changes of mode and wrap) leading to [g1]
    and one more frame leading to [g2], the stored record of every key
    never decreases.  An entry that differs between [g] and [g1] holds a
    strictly larger number, and that number is the score after one of the
    ticks of those frames, a tick run under that same key.  In the last
    frame an entry of the table is either untouched or it is the entry of
    the (mode, wrap) pair in force during the frame and is replaced by a
    strictly larger score, the score after one of the ticks of the frame,
    run under that same key. *)
Theorem records_never_decrease (g g1 g2 : Game.t) (fuel : nat)
    (fs : list Frame) (f : Frame) (b : bool) (key : string) :
  reachable g ->
  run_frames fuel fs g = Some g1 ->
  run_frame fuel f g1 = Some (Ok (g2, b)) ->
  record_of g key <= record_of g1 key <= record_of g2 key
  /\ (records g1 !! key = records g !! key
      \/ exists s, records g1 !! key = Some s
                   /\ record_of g key < s
                   /\ (key, s) ∈ run_scores fuel fs g)
  /\ (records g2 !! key = records g1 !! key
      \/ (key = active_key g1 /\ active_key g2 = active_key g1
          /\ exists s, records g2 !! key = Some s
                       /\ record_of g1 key < s <= score g2
                       /\ (key, s) ∈ frame_scores fuel f g1)).
Proof.
  intros Hg Hfs Hf.
  pose proof (run_frames_reachable _ _ _ _ Hg Hfs) as Hg1.
  pose proof (run_frames_earned _ _ _ _ Hg Hfs) as He1.
  pose proof (run_frame_earned _ _ _ _ _ (reachable_wf _ Hg1) Hf) as He2.
  split; [split; eapply records_earned_le; eassumption|].
  split; [apply He1|].
  destruct (run_frame_ok _ _ _ _ _ (reachable_wf _ Hg1) Hf) as [_ Hk].
  destruct (Hk key) as [Heq|(Hkey & Hact & s & Hs & Hlt)]; [left; exact Heq|].
  right. split; [exact Hkey|]. split; [exact Hact|].
  exists s. split; [exact Hs|]. split; [exact Hlt|].
  destruct (He2 key) as [Heq|(s' & Hs' & _ & Hin)].
  - exfalso. unfold record_of in Hlt. rewrite <- Heq, Hs in Hlt.
    simpl in Hlt. lia.
  - rewrite Hs in Hs'. injection Hs' as <-. exact Hin.
Qed.

(** ** The tick rate *)

Lemma Qltb_spec (a b : Q) : if Qltb a b then (a < b)%Q else (b <= a)%Q.
Proof. unfold Qltb. destruct (Qlt_le_dec a b); assumption. Qed.

Ltac case_Qltb :=
  match goal with
  | |- context [Qltb ?a ?b] =>
      pose proof (Qltb_spec a b); destruct (Qltb a b); cbv beta iota in *
  | H : context [Qltb ?a ?b] |- _ =>
      pose proof (Qltb_spec a b); destruct (Qltb a b); cbv beta iota in *
  end.

Lemma clamp_mono (x y lo hi : Q) :
  (x <= y)%Q -> (clamp x lo hi <= clamp y lo hi)%Q.
Proof.
  intros H. unfold clamp, py_max, py_min. repeat case_Qltb; lra.
Qed.

Lemma clamp_bounds (x lo hi : Q) :
  (lo <= hi)%Q -> (lo <= clamp x lo hi <= hi)%Q.
Proof.
  intros H. unfold clamp, py_max, py_min. repeat case_Qltb; lra.
Qed.

Lemma speed_for_mono (m : Mode) (s1 s2 : Z) :
  s1 <= s2 -> (speed_for m s1 <= speed_for m s2)%Q.
Proof.
  intros H. unfold speed_for. apply clamp_mono.
  apply Qplus_le_r. apply Qmult_le_compat_r; [|unfold SPEED_INCREMENT; lra].
  rewrite <- Zle_Qle. apply Z.div_le_mono; [reflexivity|exact H].
Qed.

Lemma speed_for_bounds (m : Mode) (s : Z) :
  (BASE_FPS m <= speed_for m s <= MAX_FPS_CAP m)%Q.
Proof. unfold speed_for. apply clamp_bounds. destruct m; simpl; lra. Qed.

(** [tick_finish] writes food, current_fps, best and records only, and the
    rate it writes is the one of the new score. *)
Lemma tick_finish_frame (r : Rand) (k : option Kind) (g : Game.t) :
  let g' := tick_finish r k g in
  mode g' = mode g /\ wrap_on g' = wrap_on g /\ state g' = state g
  /\ snake g' = snake g /\ score g' = score g
  /\ logic_acc g' = logic_acc g
  /\ current_fps g' = speed_for (mode g) (score g).
Proof.
  intros g'. subst g'. unfold tick_finish.
  pose proof (manage_food_frame r k g) as Hfr. simpl in Hfr.
  set (g1 := manage_food r k g) in *. clearbody g1.
  destruct Hfr as (Hm & Hw & Hst & Hr & Hsn & Hsc & Hb & Hacc & Hfps).
  cbv zeta. destruct (_ >? _); cbn; rewrite Hm, Hsc; repeat split; auto.
Qed.

(** A tick that returns ends in one of its three exits. *)
Lemma step_logic_exits (r : Rand) (g g' : Game.t) :
  step_logic r g = Ok g' ->
  (exists g0, g' = to_game_over g0)
  \/ (exists k g1, g' = tick_finish r k g1 /\ mode g1 = mode g
                   /\ state g1 = state g).
Proof.
  rewrite step_logic_stages.
  destruct (Snake.next_head (snake g)) as [n|]; [|discriminate].
  cbn [mbind result_bind].
  destruct (negb (wrap_on g) && off_grid n); [intros [= <-]; eauto|].
  cbv zeta.
  destruct (tick_moved _ _) as [s2|]; [|discriminate].
  cbn [mbind result_bind].
  destruct (Snake.hits_self s2) as [[|]|]; [| |discriminate];
    cbn [mbind result_bind]; intros [= <-]; [left; eauto|].
  right. eexists _, _. split; [reflexivity|].
  pose proof (tick_scored_frame (eaten (tick_cell (wrap_on g) n) g) g) as H.
  cbv zeta in H. cbn. intuition.
Qed.

(** The rate after a tick that runs to its end.  A tick that leaves the
    game in state Playing has passed both collision tests, and it leaves
    current_fps at clamp(base + floor(score / 5) * 0.5, base, ceiling) for
    the mode in force; as a function of the score this rate is monotonic
    non-decreasing, and it always lies between the base and the ceiling of
    the mode. *)
Lemma tick_rate_after_tick (r : Rand) (g g' : Game.t) (m : Mode)
    (s1 s2 : Z) :
  step_logic r g = Ok g' -> state g' = Playing -> s1 <= s2 ->
  current_fps g'
  = clamp (BASE_FPS (mode g') + inject_Z (score g' / 5) * (1 # 2))%Q
          (BASE_FPS (mode g')) (MAX_FPS_CAP (mode g'))
  /\ (speed_for m s1 <= speed_for m s2)%Q
  /\ (BASE_FPS m <= speed_for m s1 <= MAX_FPS_CAP m)%Q
  /\ (BASE_FPS (mode g') <= current_fps g' <= MAX_FPS_CAP (mode g'))%Q.
Proof.
  intros Hstep Hst Hle.
  assert (Hfps : current_fps g' = speed_for (mode g') (score g')).
  { destruct (step_logic_exits _ _ _ Hstep) as [[g0 ->]|(k & g1 & -> & _)].
    - discriminate.
    - pose proof (tick_finish_frame r k g1) as H. cbv zeta in H.
      destruct H as (Hm & _ & _ & _ & Hsc & _ & Hfps).
      rewrite Hfps, Hm, Hsc. reflexivity. }
  split; [exact Hfps|].
  split; [apply speed_for_mono, Hle|].
  split; [apply speed_for_bounds|].
  rewrite Hfps. apply speed_for_bounds.
Qed.

(** ** Eating *)


(** ** The drain loop of [play_loop] *)

Lemma Qle_bool_spec (a b : Q) :
  if Qle_bool a b then (a <= b)%Q else (b < a)%Q.
Proof.
  destruct (Qle_bool a b) eqn:E.
  - apply Qle_bool_iff, E.
  - apply Qnot_le_lt. intros H. apply Qle_bool_iff in H. congruence.
Qed.

(** Any accumulator is below some multiple of a positive step. *)
Lemma fuel_bound (acc step : Q) :
  (0 < step)%Q ->
  exists k : nat, (acc < inject_Z (Z.of_nat k) * step)%Q.
Proof.
  intros Hpos.
  exists (Z.to_nat (Z.max 0 (Qfloor (acc / step) + 1))).
  rewrite Z2Nat.id by lia.
  pose proof (Qlt_floor (acc / step)) as Hfl.
  assert (Hle : (inject_Z (Qfloor (acc / step) + 1)
                 <= inject_Z (Z.max 0 (Qfloor (acc / step) + 1)))%Q)
    by (rewrite <- Zle_Qle; lia).
  assert (Hacc : (acc == acc / step * step)%Q)
    by (field; lra).
  rewrite Hacc at 1.
  apply Qmult_lt_r; [exact Hpos|]. lra.
Qed.

(** With a positive step the loop ends from every state of the invariant:
    it runs some number [n] of iterations of its body, the same for every
    sufficient fuel, all of them with the step it was given. *)
Lemma drain_total (step : Q) (rs : nat -> Rand) :
  (0 < step)%Q ->
  forall (k i : nat) (g : Game.t),
    wf g ->
    (logic_acc g < inject_Z (Z.of_nat k) * step)%Q ->
    exists (n : nat) (g' : Game.t),
      (forall fuel, (n <= fuel)%nat ->
                    drain fuel step rs i g = Some (Ok g'))
      /\ run_ticks step rs i n g = Ok g'
      /\ wf g'.
Proof.
  intros Hpos. induction k as [|k IH]; intros i g Hwf Hlt.
  - exists 0%nat, g.
    assert (Hacc : (logic_acc g < step)%Q)
      by (change (inject_Z (Z.of_nat 0)) with 0%Q in Hlt; lra).
    split.
    { intros fuel _.
      destruct fuel; cbn [drain];
        pose proof (Qle_bool_spec step (logic_acc g)) as Ht;
        destruct (Qle_bool step (logic_acc g)); try reflexivity; lra. }
    split; [reflexivity|exact Hwf].
  - pose proof (Qle_bool_spec step (logic_acc g)) as Ht.
    destruct (Qle_bool step (logic_acc g)) eqn:Htest.
    + set (g0 := set_logic_acc (logic_acc g - step)%Q g).
      assert (Hwf0 : wf g0) by (destruct Hwf; split; assumption).
      destruct (step_logic_ok (rs i) g0 Hwf0)
        as (g1 & Hstep & Hwf1 & _ & Hacc1 & _).
      change (logic_acc g0) with (logic_acc g - step)%Q in Hacc1.
      assert (Hlt1 : (logic_acc g1 < inject_Z (Z.of_nat k) * step)%Q).
      { rewrite Hacc1. rewrite Nat2Z.inj_succ in Hlt.
        unfold Z.succ in Hlt. rewrite inject_Z_plus in Hlt.
        change (inject_Z 1) with 1%Q in Hlt.
        set (x := inject_Z (Z.of_nat k)) in *. nra. }
      destruct (IH (S i) g1 Hwf1 Hlt1) as (n & g' & Hfuel & Hrun & Hwf').
      exists (S n), g'.
      split.
      { intros [|fuel] Hle; [lia|]. cbn [drain].
        rewrite Htest. fold g0. rewrite Hstep. apply Hfuel. lia. }
      split; [|exact Hwf'].
      cbn [run_ticks]. fold g0. rewrite Hstep. exact Hrun.
    + exists 0%nat, g.
      split.
      { intros fuel _. destruct fuel; cbn [drain]; rewrite Htest;
          reflexivity. }
      split; [reflexivity|exact Hwf].
Qed.



(** * Concrete runs *)

(** Closed goals about concrete runs are settled by evaluation, one
    conjunct at a time. *)
Ltac by_running :=
  repeat match goal with |- _ /\ _ => split end;
  vm_compute; reflexivity.

Lemma wrap_game_reachable : reachable wrap_game.
Proof. unfold wrap_game. apply reach_init. Qed.

Lemma no_wrap_game_reachable : reachable no_wrap_game.
Proof. unfold no_wrap_game. apply reach_init. Qed.

(** The state of a completed list of frames is reachable. *)
Lemma after_frames_reachable (fuel : nat) (fs : list Frame) (g : Game.t) :
  reachable g ->
  run_frames fuel fs g = Some (after_frames fuel fs g) ->
  reachable (after_frames fuel fs g).
Proof. intros Hg H. exact (run_frames_reachable _ _ _ _ Hg H). Qed.

(** The start position: the deque is filled from the left, so the head
    [body[0]] is the leftmost of the three cells, and the first tick of a
    run that was not turned moves it onto its own neck. *)
Example start_position :
  Snake.body (snake no_wrap_game) = [(14, 12); (15, 12); (16, 12)]
  /\ Snake.dir (snake no_wrap_game) = RIGHT
  /\ state (after_tick tick0 no_wrap_game) = GameOver
  /\ game_over_reason (after_tick tick0 no_wrap_game) = "self".
Proof. by_running. Qed.

(** C1 (the code departs from the claim).  In wrap mode the folded
    coordinates are used for the food test only: [Snake.move] recomputes
    the next head and stores it unfolded.  After [edge_trace] the head is
    on the last column (31, 11) and moves right; one more tick stores the
    head at column 32, outside the grid, instead of column 0, and no
    collision is signalled. *)
Theorem wrap_head_stored_unfolded :
  exists g g',
    run_frames 20 edge_trace wrap_game = Some g
    /\ wrap_on g = true /\ state g = Playing
    /\ Snake.head (snake g) = Ok (31, 11) /\ Snake.dir (snake g) = RIGHT
    /\ run_frame 20 (frame_of [] 100 0) g = Some (Ok (g', true))
    /\ state g' = Playing
    /\ Snake.head (snake g') = Ok (32, 11)
    /\ Snake.body (snake g') = [(32, 11); (31, 11); (30, 11)].
Proof.
  exists (after_frames 20 edge_trace wrap_game),
    (after_frames 20 (edge_trace ++ [frame_of [] 100 0]) wrap_game).
  by_running.
Qed.

(** Outside the runs.  [gold_state] is built by hand: the head at
    (14, 12) heading up and a gold food on (14, 11), which no run produces
    (the food of a reachable state is Normal).  There the gold branch of
    the tick moves the snake twice and stores the head at (14, 10), two
    cells ahead. *)
Lemma gold_tick_moves_two_cells :
  exists g',
    step_logic tick0 gold_state = Ok g'
    /\ eaten (14, 11) gold_state = Some KGold
    /\ Snake.head (snake gold_state) = Ok (14, 12)
    /\ Snake.head (snake g') = Ok (14, 10)
    /\ cell_distance (14, 12) (14, 10) = 2
    /\ score g' = score gold_state + 30
    /\ length (Snake.body (snake g'))
       = (length (Snake.body (snake gold_state)) + 2)%nat.
Proof.
  exists (after_tick tick0 gold_state).
  by_running.
Qed.

Lemma reachable_food_is_normal_witness :
  reachable (after_frames 5 bite_trace wrap_game)
  /\ food (after_frames 5 bite_trace wrap_game)
     = Some (mkFood (14, 23) KNormal 0)
  /\ kind (mkFood (14, 23) KNormal 0) = KNormal.
Proof.
  assert (Hr : reachable (after_frames 5 bite_trace wrap_game)).
  { apply after_frames_reachable; [apply wrap_game_reachable|].
    vm_compute. reflexivity. }
  assert (Hf : food (after_frames 5 bite_trace wrap_game)
               = Some (mkFood (14, 23) KNormal 0))
    by (vm_compute; reflexivity).
  split; [exact Hr|]. split; [exact Hf|].
  exact (reachable_food_is_normal _ _ Hr Hf).
Defined.

(** C4 (the code departs from the claim).  [spawn_food] tests
    [self.food is None], not the absence of a gold food.  In [fed_state]
    the food is Normal, so no gold food exists; the call is not forced,
    the board has 765 free cells and the roll 0 is below GOLD_CHANCE: the
    spawned food is Normal all the same.  The same happens inside a tick
    that eats the Normal food with both rolls successful. *)
Theorem spawn_over_normal_food_is_normal :
  food fed_state = Some (mkFood (0, 0) KNormal 0)
  /\ length (free_cells (snake fed_state)) = 765%nat
  /\ Qltb (d_random (mkDraw 0 0 5)) GOLD_CHANCE = true
  /\ food (spawn_food (mkDraw 0 0 5) false fed_state)
     = Some (mkFood (0, 0) KNormal 0)
  /\ (exists g g',
        run_frames 5 [start_frame] wrap_game = Some g
        /\ food g = Some (mkFood (14, 11) KNormal 0)
        /\ step_logic lucky_tick (handle_turn_keys K_UP g) = Ok g'
        /\ score g' = 10
        /\ food g' = Some (mkFood (0, 0) KNormal 0)).
Proof.
  do 4 (split; [vm_compute; reflexivity|]).
  exists (after_frames 5 [start_frame] wrap_game),
    (after_tick lucky_tick
       (handle_turn_keys K_UP (after_frames 5 [start_frame] wrap_game))).
  by_running.
Qed.



Lemma wall_collision_tick_witness :
  exists g',
    step_logic tick0 (after_frames 20 wall_trace no_wrap_game) = Ok g'
    /\ state g' = GameOver /\ game_over_reason g' = "wall"
    /\ snake g' = snake (after_frames 20 wall_trace no_wrap_game)
    /\ food g' = food (after_frames 20 wall_trace no_wrap_game)
    /\ score g' = score (after_frames 20 wall_trace no_wrap_game)
    /\ records g' = records (after_frames 20 wall_trace no_wrap_game)
    /\ best g' = best (after_frames 20 wall_trace no_wrap_game)
    /\ current_fps g'
       = current_fps (after_frames 20 wall_trace no_wrap_game).
Proof.
  apply (wall_collision_tick tick0
           (after_frames 20 wall_trace no_wrap_game) (14, -1)).
  - vm_compute. reflexivity.
  - vm_compute. reflexivity.
  - unfold in_grid. cbn. lia.
Defined.

(** C7 (the code departs from the claim).  [bite_trace] is a run in wrap
    mode that leaves the snake stored above the grid (in wrap mode the
    head is stored unfolded) with score 30, rate 13 and the food on
    (14, 23), the fold of (14, -1), a cell of the stored body.  The player
    turns down; the tick eats that food (score 40) and bites the body at
    (14, -1): it returns through the self-collision exit, before the rate
    is recomputed, so after the tick current_fps is still 13, not
    clamp(10 + floor(40 / 5) * 0.5, 10, 24) = 14.  [g'] is the state after
    that tick alone, [g''] the state after the whole frame. *)
Theorem tick_rate_stale_after_bite :
  exists g g' g'',
    run_frames 5 bite_trace wrap_game = Some g
    /\ run_frame 5 (frame_of [KEYDOWN K_DOWN] 84 0) g = Some (Ok (g'', true))
    /\ score g'' = 40 /\ (current_fps g'' == 13)%Q
    /\ state g = Playing /\ score g = 30 /\ (current_fps g == 13)%Q
    /\ wrap_on g = true
    /\ Snake.head (snake g) = Ok (14, -2)
    /\ food g = Some (mkFood (14, 23) KNormal 0)
    /\ Snake.next_head (snake (handle_turn_keys K_DOWN g)) = Ok (14, -1)
    /\ step_logic tick0 (handle_turn_keys K_DOWN g) = Ok g'
    /\ state g' = GameOver /\ game_over_reason g' = "self"
    /\ score g' = 40
    /\ (current_fps g' == 13)%Q
    /\ (clamp (BASE_FPS (mode g') + inject_Z (score g' / 5) * (1 # 2))
              (BASE_FPS (mode g')) (MAX_FPS_CAP (mode g')) == 14)%Q.
Proof.
  exists (after_frames 5 bite_trace wrap_game),
    (after_tick tick0
       (handle_turn_keys K_DOWN (after_frames 5 bite_trace wrap_game))),
    (frame_result
       (run_frame 5 (frame_of [KEYDOWN K_DOWN] 84 0)
          (after_frames 5 bite_trace wrap_game)) wrap_game).
  by_running.
Qed.

Lemma tick_rate_after_tick_witness :
  current_fps (after_tick tick0 fed_state)
  = clamp (BASE_FPS (mode (after_tick tick0 fed_state))
           + inject_Z (score (after_tick tick0 fed_state) / 5) * (1 # 2))%Q
          (BASE_FPS (mode (after_tick tick0 fed_state)))
          (MAX_FPS_CAP (mode (after_tick tick0 fed_state)))
  /\ (speed_for Hard 0 <= speed_for Hard 200)%Q
  /\ (BASE_FPS Hard <= speed_for Hard 0 <= MAX_FPS_CAP Hard)%Q
  /\ (BASE_FPS (mode (after_tick tick0 fed_state))
      <= current_fps (after_tick tick0 fed_state)
      <= MAX_FPS_CAP (mode (after_tick tick0 fed_state)))%Q.
Proof.
  apply (tick_rate_after_tick tick0 fed_state (after_tick tick0 fed_state)
           Hard 0 200).
  - vm_compute. reflexivity.
  - vm_compute. reflexivity.
  - lia.
Defined.

Lemma records_never_decrease_witness :
  record_of wrap_game "normal_on"
  <= record_of (after_frames 5 [start_frame] wrap_game) "normal_on"
  <= record_of eat_frame_result "normal_on"
  /\ (records (after_frames 5 [start_frame] wrap_game) !! "normal_on"
      = records wrap_game !! "normal_on"
      \/ exists s,
           records (after_frames 5 [start_frame] wrap_game) !! "normal_on"
           = Some s
           /\ record_of wrap_game "normal_on" < s
           /\ ("normal_on", s) ∈ run_scores 5 [start_frame] wrap_game)
  /\ (records eat_frame_result !! "normal_on"
      = records (after_frames 5 [start_frame] wrap_game) !! "normal_on"
      \/ ("normal_on" = active_key (after_frames 5 [start_frame] wrap_game)
          /\ active_key eat_frame_result
             = active_key (after_frames 5 [start_frame] wrap_game)
          /\ exists s,
               records eat_frame_result !! "normal_on" = Some s
               /\ record_of (after_frames 5 [start_frame] wrap_game)
                    "normal_on" < s
                  <= score eat_frame_result
               /\ ("normal_on", s)
                  ∈ frame_scores 5 eat_frame
                      (after_frames 5 [start_frame] wrap_game))).
Proof.
  apply (records_never_decrease wrap_game
           (after_frames 5 [start_frame] wrap_game) eat_frame_result
           5%nat [start_frame] eat_frame true "normal_on").
  - apply wrap_game_reachable.
  - vm_compute. reflexivity.
  - vm_compute. reflexivity.
Defined.

(** * Further properties of the code *)

(** ** Utilities *)

(** X1. [key_for_record] separates the six configurations: two (mode, wrap)
    pairs share a key only when they are the same pair, so the records of
    different configurations never overwrite one another. *)
Theorem key_for_record_inj (m m' : Mode) (w w' : bool) :
  key_for_record m w = key_for_record m' w' -> m = m' /\ w = w'.
Proof.
  destruct m, w, m', w'; intros H; cbv in H;
    first [discriminate H | split; reflexivity].
Qed.

Lemma key_for_record_inj_witness :
  Normal = Normal /\ true = true.
Proof. apply (key_for_record_inj Normal Normal true true). reflexivity. Defined.

Lemma clamp_three_cases (n lo hi : Q) :
  (lo <= hi)%Q ->
  ((n <= lo)%Q -> (clamp n lo hi == lo)%Q)
  /\ ((lo <= n <= hi)%Q -> (clamp n lo hi == n)%Q)
  /\ ((hi <= n)%Q -> (clamp n lo hi == hi)%Q).
Proof.
  intros H. unfold clamp, py_max, py_min.
  repeat split; intros; repeat case_Qltb; lra.
Qed.

(** X2. [clamp] with ordered bounds: below the lower bound it gives the
    lower bound, above the upper bound the upper bound, and in between it
    gives its argument back. *)
Theorem clamp_cases (n lo hi : Q) :
  (lo <= hi)%Q ->
  ((n <= lo)%Q -> (clamp n lo hi == lo)%Q)
  /\ ((lo <= n <= hi)%Q -> (clamp n lo hi == n)%Q)
  /\ ((hi <= n)%Q -> (clamp n lo hi == hi)%Q).
Proof. apply clamp_three_cases. Qed.

Lemma clamp_cases_witness :
  ((30 <= 10)%Q -> (clamp 30 10 24 == 10)%Q)
  /\ ((10 <= 30 <= 24)%Q -> (clamp 30 10 24 == 30)%Q)
  /\ ((24 <= 30)%Q -> (clamp 30 10 24 == 24)%Q).
Proof. apply (clamp_cases 30 10 24). lra. Defined.

(** X3. The speed formula saturates: from score 120 (easy), 140 (normal),
    160 (hard) on the tick rate is the ceiling of the mode, and below
    score 5 (negative scores included) it is the base rate.  The scores
    are taken within [float_int_bound], where [inc_steps * SPEED_INCREMENT]
    does not overflow. *)
Theorem speed_for_saturates (m : Mode) (s s0 : Z) :
  match m with Easy => 120 | Normal => 140 | Hard => 160 end <= s ->
  s <= float_int_bound ->
  - float_int_bound <= s0 ->
  s0 < 5 ->
  (speed_for m s == MAX_FPS_CAP m)%Q /\ (speed_for m s0 == BASE_FPS m)%Q.
Proof.
  unfold speed_for, SPEED_STEP_EVERY_SCORE, SPEED_INCREMENT.
  intros H _ _ H0. split.
  - assert (Hq : (match m with Easy => 24 | Normal => 28 | Hard => 32 end
                  <= inject_Z (s / 5))%Q).
    { destruct m;
        [change 24%Q with (inject_Z 24) | change 28%Q with (inject_Z 28)
         | change 32%Q with (inject_Z 32)];
        rewrite <- Zle_Qle; apply Z.div_le_lower_bound; lia. }
    set (x := inject_Z (s / 5)) in *.
    apply clamp_three_cases; destruct m; simpl in *; lra.
  - assert (Hq : (inject_Z (s0 / 5) <= 0)%Q).
    { change 0%Q with (inject_Z 0). rewrite <- Zle_Qle.
      assert (s0 / 5 < 1) by (apply Z.div_lt_upper_bound; lia). lia. }
    set (x := inject_Z (s0 / 5)) in *.
    apply clamp_three_cases; destruct m; simpl in *; lra.
Qed.

Lemma speed_for_saturates_witness :
  (speed_for Normal 140 == MAX_FPS_CAP Normal)%Q
  /\ (speed_for Normal 4 == BASE_FPS Normal)%Q.
Proof.
  apply (speed_for_saturates Normal 140 4); try lia;
    apply Z.leb_le; vm_compute; reflexivity.
Defined.

(** ** [Snake] *)

Lemma init_body_succ (start : Vec2) (n : nat) (d : Vec2) :
  Snake.body (Snake.init start (S n) d)
  = (start.1 - Z.of_nat n, start.2) :: Snake.body (Snake.init start n d).
Proof.
  unfold Snake.init. cbn [Snake.body].
  rewrite seq_S, fold_left_app. reflexivity.
Qed.

(** X4. [Snake.__init__] builds [length] cells on the row of [start]; the
    cell at index [j] is [length - 1 - j] columns to the left of [start].
    So [start] is the last cell of the deque and the head [body[0]] is the
    leftmost cell, [length - 1] columns to the left of [start]. *)
Theorem snake_init_cells (start : Vec2) (n j : nat) (d : Vec2) :
  (j < n)%nat ->
  length (Snake.body (Snake.init start n d)) = n
  /\ Snake.dir (Snake.init start n d) = d
  /\ Snake.body (Snake.init start n d) !! j
     = Some (start.1 - Z.of_nat (n - 1 - j), start.2).
Proof.
  intros Hj. split; [|split; [reflexivity|]].
  - clear. induction n as [|n IH]; [reflexivity|].
    rewrite init_body_succ. cbn [length]. rewrite IH. reflexivity.
  - revert j Hj. induction n as [|n IH]; intros j Hj; [lia|].
    rewrite init_body_succ. destruct j as [|j].
    + cbn [lookup list_lookup]. do 2 f_equal. lia.
    + cbn [lookup list_lookup]. rewrite IH by lia.
      do 2 f_equal. lia.
Qed.

Lemma snake_init_cells_witness :
  length (Snake.body (Snake.init (16, 12) 3 RIGHT)) = 3%nat
  /\ Snake.dir (Snake.init (16, 12) 3 RIGHT) = RIGHT
  /\ Snake.body (Snake.init (16, 12) 3 RIGHT) !! 0%nat
     = Some ((16, 12).1 - Z.of_nat (3 - 1 - 0), (16, 12).2).
Proof. apply (snake_init_cells (16, 12) 3 0 RIGHT). lia. Defined.

(** X5. [Snake.move] on a snake with a head never raises; the new head is
    the old head plus the direction, the direction is kept, the cells
    behind the new head are the old cells in order, and the snake is one
    cell longer when growing and as long as before otherwise. *)
Theorem move_shape (grow : bool) (s : Snake.t) (h : Vec2) :
  Snake.head s = Ok h ->
  exists s',
    Snake.move grow s = Ok s'
    /\ Snake.dir s' = Snake.dir s
    /\ Snake.head s' = Ok (h.1 + (Snake.dir s).1, h.2 + (Snake.dir s).2)
    /\ length (Snake.body s')
       = (length (Snake.body s) + (if grow then 1 else 0))%nat
    /\ Snake.body s'
       = take (length (Snake.body s')) 
           ((h.1 + (Snake.dir s).1, h.2 + (Snake.dir s).2) :: Snake.body s).
Proof.
  intros Hh. rewrite (move_ok grow s _ (head_next_head s h Hh)).
  destruct (head_nonempty s h Hh) as [tl Hb].
  eexists. split; [reflexivity|]. split; [reflexivity|].
  cbn [Snake.body Snake.dir]. unfold Snake.head. cbn [Snake.body].
  set (n := (_, _)). rewrite Hb.
  destruct grow.
  - split; [reflexivity|]. split; [cbn; lia|].
    rewrite firstn_all. reflexivity.
  - change (removelast (n :: h :: tl)) with (n :: removelast (h :: tl)).
    split; [reflexivity|].
    assert (Hlen : length (removelast (h :: tl)) = length tl).
    { rewrite removelast_firstn_len. rewrite length_take. cbn. lia. }
    split; [cbn [length]; rewrite Hlen; lia|].
    cbn [length take]. f_equal. rewrite Hlen.
    rewrite removelast_firstn_len. reflexivity.
Qed.

Lemma move_shape_witness :
  exists s',
    Snake.move false (Snake.init (16, 12) 3 RIGHT) = Ok s'
    /\ Snake.dir s' = Snake.dir (Snake.init (16, 12) 3 RIGHT)
    /\ Snake.head s'
       = Ok ((14, 12).1 + (Snake.dir (Snake.init (16, 12) 3 RIGHT)).1,
             (14, 12).2 + (Snake.dir (Snake.init (16, 12) 3 RIGHT)).2)
    /\ length (Snake.body s')
       = (length (Snake.body (Snake.init (16, 12)%Z 3 RIGHT)) + 0)%nat
    /\ Snake.body s'
       = take (length (Snake.body s'))
           (((14, 12).1 + (Snake.dir (Snake.init (16, 12) 3 RIGHT)).1,
             (14, 12).2 + (Snake.dir (Snake.init (16, 12) 3 RIGHT)).2)
            :: Snake.body (Snake.init (16, 12) 3 RIGHT)).
Proof.
  apply (move_shape false (Snake.init (16, 12) 3 RIGHT) (14, 12)).
  reflexivity.
Defined.

(** X6. The reversal guard of [Snake.turn] looks at the current direction
    only.  Two turns in a row, first to a direction [p] that is neither
    the current direction nor its opposite, then to the opposite of the
    original direction, are both accepted: the snake ends up reversed
    without having moved. *)
Theorem turn_twice_reverses (s : Snake.t) (p : Vec2) :
  opposite (Snake.dir s) p = false ->
  opposite p (- (Snake.dir s).1, - (Snake.dir s).2) = false ->
  Snake.dir
    (Snake.turn (- (Snake.dir s).1, - (Snake.dir s).2) (Snake.turn p s))
  = (- (Snake.dir s).1, - (Snake.dir s).2)
  /\ Snake.body
       (Snake.turn (- (Snake.dir s).1, - (Snake.dir s).2) (Snake.turn p s))
     = Snake.body s.
Proof.
  intros H1 H2. split; [|rewrite !turn_body; reflexivity].
  unfold Snake.turn at 2. rewrite H1.
  unfold Snake.turn. cbn [Snake.dir]. rewrite H2. reflexivity.
Qed.

Lemma turn_twice_reverses_witness :
  Snake.dir
    (Snake.turn
       (- (Snake.dir (Snake.init (16, 12) 3 RIGHT)).1,
        - (Snake.dir (Snake.init (16, 12) 3 RIGHT)).2)
       (Snake.turn UP (Snake.init (16, 12) 3 RIGHT)))
  = (- (Snake.dir (Snake.init (16, 12) 3 RIGHT)).1,
     - (Snake.dir (Snake.init (16, 12) 3 RIGHT)).2)
  /\ Snake.body
       (Snake.turn
          (- (Snake.dir (Snake.init (16, 12) 3 RIGHT)).1,
           - (Snake.dir (Snake.init (16, 12) 3 RIGHT)).2)
          (Snake.turn UP (Snake.init (16, 12) 3 RIGHT)))
     = Snake.body (Snake.init (16, 12) 3 RIGHT).
Proof.
  apply (turn_twice_reverses (Snake.init (16, 12) 3 RIGHT) UP);
    reflexivity.
Defined.

(** ** Food *)

Lemma grid_cells_spec (c : Vec2) : c ∈ grid_cells <-> in_grid c.
Proof.
  unfold grid_cells, in_grid. destruct c as [x y]. cbn [fst snd].
  rewrite list_elem_of_bind. split.
  - intros (x0 & Hy & Hx). apply list_elem_of_bind in Hy.
    destruct Hy as (y0 & Hc & Hy). apply list_elem_of_singleton in Hc.
    injection Hc as -> ->.
    apply elem_of_seqZ in Hx. apply elem_of_seqZ in Hy. lia.
  - intros [Hx Hy]. exists x. split; [|apply elem_of_seqZ; lia].
    apply list_elem_of_bind. exists y.
    split; [apply list_elem_of_singleton; reflexivity|].
    apply elem_of_seqZ; lia.
Qed.

Lemma free_cells_elem (s : Snake.t) (c : Vec2) :
  c ∈ free_cells s <-> in_grid c /\ (c ∉ Snake.body s).
Proof.
  unfold free_cells, Snake.occupies.
  rewrite list_elem_of_filter, grid_cells_spec, elem_of_list_to_set.
  tauto.
Qed.

(** X7. The free cells of [spawn_food] are exactly the cells of the grid
    that are not in the stored body of the snake. *)
Theorem free_cells_spec (s : Snake.t) (c : Vec2) :
  c ∈ free_cells s <-> in_grid c /\ (c ∉ Snake.body s).
Proof. apply free_cells_elem. Qed.

Lemma spawn_food_places (d : Draw) (b : bool) (g : Game.t) :
  free_cells (snake g) <> [] ->
  exists f,
    food (spawn_food d b g) = Some f
    /\ in_grid (pos f) /\ (pos f ∉ Snake.body (snake g))
    /\ spawn_time f = match kind f with
                      | KGold => d_time d
                      | KNormal => 0%Q
                      end.
Proof.
  intros Hne. unfold spawn_food.
  destruct (free_cells (snake g)) as [|c0 l] eqn:Hfree; [contradiction|].
  set (p := default c0 _).
  assert (Hp : p ∈ free_cells (snake g)).
  { rewrite Hfree. subst p.
    destruct ((c0 :: l) !! _) as [c|] eqn:Hc; cbn.
    - eapply list_elem_of_lookup_2, Hc.
    - left. }
  apply free_cells_elem in Hp. destruct Hp as [Hin Hout].
  destruct (negb b && _ && _); eexists; (split; [reflexivity|]);
    cbn; auto.
Qed.

(** X8. When a cell is free, [spawn_food] puts a food on a free cell: a
    cell of the grid that is not in the body of the snake.  Its spawn time
    is the clock reading when gold and 0.0 when normal. *)
Theorem spawn_food_on_free_cell (d : Draw) (b : bool) (g : Game.t) :
  free_cells (snake g) <> [] ->
  exists f,
    food (spawn_food d b g) = Some f
    /\ in_grid (pos f) /\ (pos f ∉ Snake.body (snake g))
    /\ spawn_time f = match kind f with
                      | KGold => d_time d
                      | KNormal => 0%Q
                      end.
Proof. apply spawn_food_places. Qed.

(** X9. On a full board, when every cell of the grid is in the body of the
    snake, [spawn_food] changes nothing: the previous food stays. *)
Theorem spawn_food_full_board (d : Draw) (b : bool) (g : Game.t) :
  (forall c, in_grid c -> c ∈ Snake.body (snake g)) ->
  spawn_food d b g = g.
Proof.
  intros Hfull. unfold spawn_food.
  destruct (free_cells (snake g)) as [|c0 l] eqn:Hfree; [reflexivity|].
  assert (Hc : c0 ∈ free_cells (snake g)) by (rewrite Hfree; left).
  apply free_cells_elem in Hc. destruct Hc as [Hin Hout].
  exfalso. apply Hout, Hfull, Hin.
Qed.

Lemma spawn_food_on_free_cell_witness :
  exists f,
    food (spawn_food (pick 0) false fed_state) = Some f
    /\ in_grid (pos f) /\ (pos f ∉ Snake.body (snake fed_state))
    /\ spawn_time f = match kind f with
                      | KGold => d_time (pick 0)
                      | KNormal => 0%Q
                      end.
Proof.
  apply (spawn_food_on_free_cell (pick 0) false fed_state).
  intros H. vm_compute in H. discriminate H.
Defined.

Lemma spawn_food_full_board_witness :
  spawn_food (pick 0) false full_board_state = full_board_state.
Proof.
  apply (spawn_food_full_board (pick 0) false full_board_state).
  intros c Hc. apply grid_cells_spec, Hc.
Defined.

(** ** The three exits of a tick *)

(** From a state whose snake has a head, a tick returns one of three
    explicit states: the wall exit, the self-collision exit, or the
    completed tick. *)
Lemma step_logic_forms (r : Rand) (g : Game.t) (h : Vec2) :
  Snake.head (snake g) = Ok h ->
  exists k s2 g',
    k = eaten (tick_cell (wrap_on g)
                 (h.1 + (Snake.dir (snake g)).1,
                  h.2 + (Snake.dir (snake g)).2)) g
    /\ step_logic r g = Ok g'
    /\ Snake.dir s2 = Snake.dir (snake g)
    /\ Snake.body s2
       = moved_body k h (Snake.dir (snake g)) (Snake.body (snake g))
    /\ ((wrap_on g = false
         /\ ~ in_grid (h.1 + (Snake.dir (snake g)).1,
                       h.2 + (Snake.dir (snake g)).2)
         /\ g' = to_game_over (set_game_over_reason "wall" g))
        \/ ((wrap_on g = true
             \/ in_grid (h.1 + (Snake.dir (snake g)).1,
                         h.2 + (Snake.dir (snake g)).2))
            /\ ((Snake.hits_self s2 = Ok true
                 /\ g' = to_game_over
                           (set_game_over_reason "self"
                              (set_snake s2 (tick_scored k g))))
                \/ (Snake.hits_self s2 = Ok false
                    /\ g' = tick_finish r k
                              (set_snake s2 (tick_scored k g)))))).
Proof.
  intros Hh.
  destruct (head_nonempty _ _ Hh) as [tl Hb].
  assert (Hne : Snake.body (snake g) <> []) by (rewrite Hb; discriminate).
  destruct (step_logic_cases r g Hne)
    as (n & Hn & Hcases).
  rewrite (head_next_head _ _ Hh) in Hn. injection Hn as <-.
  set (n := (_, _)) in *. set (k := eaten (tick_cell (wrap_on g) n) g) in *.
  destruct (tick_moved_ok k _ _ Hh) as (s2 & Hs2 & Hdir & Hbody).
  assert (Hmb : Snake.body s2
                = moved_body k h (Snake.dir (snake g))
                    (Snake.body (snake g))).
  { unfold moved_body. destruct k as [[|]|]; exact Hbody. }
  exists k, s2.
  destruct Hcases as [(Hw & Hout & Hstep)
                     |(Hin & s2' & hit & Hs2' & Hhit & Hstep)].
  - eexists. split; [reflexivity|]. split; [exact Hstep|].
    split; [exact Hdir|]. split; [exact Hmb|]. left. auto.
  - rewrite Hs2 in Hs2'. injection Hs2' as <-.
    eexists. split; [reflexivity|]. split; [exact Hstep|].
    split; [exact Hdir|]. split; [exact Hmb|]. right.
    split; [exact Hin|]. cbv zeta. destruct hit; [left|right]; auto.
Qed.

(** In a state of the invariant no tick eats gold. *)
Lemma wf_eats_no_gold (g : Game.t) (c : Vec2) :
  wf g -> eaten c g <> Some KGold.
Proof.
  intros Hwf Hk. destruct (eaten_food _ _ _ Hk) as (f & Hf & Hkind & _).
  rewrite (wf_food _ Hwf _ Hf) in Hkind. discriminate.
Qed.

(** ** A proof principle for the reachable states

    The loops only compose nine operations; a property that each of them
    keeps holds in every reachable state. *)

Section Invariant.

Variable I : Game.t -> Prop.

Hypothesis I_init :
  forall mode0 wrap0 cfg_sound cfg_records mixer_ok d,
    I (Game.init mode0 wrap0 cfg_sound cfg_records mixer_ok d).
Hypothesis I_reset : forall d b g, I g -> I (reset_run d b g).
Hypothesis I_state : forall st g, I g -> I (set_state st g).
Hypothesis I_turn : forall key g, I g -> I (handle_turn_keys key g).
Hypothesis I_mute : forall g, I g -> I (mute_key g).
Hypothesis I_cursor :
  forall v g, I g -> 0 <= v < 5 -> I (set_menu_index v g).
Hypothesis I_change :
  forall forward g g', I g -> menu_change_value forward g = Ok g' -> I g'.
Hypothesis I_acc : forall v g, I g -> I (set_logic_acc v g).
Hypothesis I_tick : forall r g g', I g -> step_logic r g = Ok g' -> I g'.

Lemma play_events_inv (draws : nat -> Draw) (evs : list Event) :
  forall i g g' ret, I g -> play_events draws i evs g = (g', ret) -> I g'.
Proof.
  induction evs as [|e evs IH]; intros i g g' ret Hg; cbn [play_events].
  - intros [= <- _]. exact Hg.
  - destruct e as [|key|]; [intros [= <- _]; exact Hg| |apply IH, Hg].
    destruct key;
      try (intros [= <- _]; apply I_state, Hg);
      try (apply IH; first [ apply I_reset, Hg | apply I_mute, Hg
                           | apply (I_turn _ _ Hg) ]).
Qed.

Lemma pause_events_inv (evs : list Event) :
  forall g g' ret, I g -> pause_events evs g = (g', ret) -> I g'.
Proof.
  induction evs as [|e evs IH]; intros g g' ret Hg; cbn [pause_events].
  - intros [= <- _]. exact Hg.
  - destruct e as [|key|]; [intros [= <- _]; exact Hg| |apply IH, Hg].
    destruct key;
      try (intros [= <- _]; apply I_state, Hg);
      try (apply IH, Hg).
    apply IH, I_mute, Hg.
Qed.

Lemma gameover_events_inv (draws : nat -> Draw) (evs : list Event) :
  forall i g g' ret,
    I g -> gameover_events draws i evs g = (g', ret) -> I g'.
Proof.
  induction evs as [|e evs IH]; intros i g g' ret Hg;
    cbn [gameover_events].
  - intros [= <- _]. exact Hg.
  - destruct e as [|key|]; [intros [= <- _]; exact Hg| |apply IH, Hg].
    destruct key;
      try (intros [= <- _]; apply I_state, Hg);
      try (apply IH, Hg).
    intros [= <- _]. apply I_state, I_reset, Hg.
Qed.

Lemma menu_events_inv (draws : nat -> Draw) (evs : list Event) :
  forall i g g' ret,
    I g -> menu_events draws i evs g = Ok (g', ret) -> I g'.
Proof.
  induction evs as [|e evs IH]; intros i g g' ret Hg; cbn [menu_events].
  - intros [= <- _]. exact Hg.
  - assert (Hchg : forall fw,
               (g0 ← menu_change_value fw g; menu_events draws (S i) evs g0)
               = Ok (g', ret) -> I g').
    { intros fw.
      destruct (menu_change_value fw g) as [g0|] eqn:Hc; [|discriminate].
      cbn [mbind result_bind]. apply IH. apply (I_change _ _ _ Hg Hc). }
    assert (Hret :
              (label ← py_index menu_items (menu_index g);
               match label with
               | Start =>
                   Ok (set_state Playing (reset_run (draws i) true g),
                       Some true)
               | QuitItem => Ok (g, Some false)
               | _ => menu_events draws (S i) evs g
               end) = Ok (g', ret) -> I g').
    { destruct (py_index menu_items (menu_index g)) as [label|];
        [|discriminate].
      cbn [mbind result_bind].
      destruct label; try apply IH, Hg.
      - intros [= <- _]. apply I_state, I_reset, Hg.
      - intros [= <- _]. exact Hg. }
    assert (Hmod : forall x, 0 <= x `mod` Z.of_nat (length menu_items) < 5).
    { intros x. apply Z.mod_pos_bound. reflexivity. }
    destruct e as [|key|]; [intros [= <- _]; exact Hg| |apply IH, Hg].
    destruct key; try apply IH, Hg; try apply Hchg; try apply Hret.
    + intros [= <- _]. exact Hg.
    + apply IH. apply I_cursor; [exact Hg|apply Hmod].
    + apply IH. apply I_cursor; [exact Hg|apply Hmod].
Qed.

Lemma drain_inv (step : Q) (rs : nat -> Rand) (fuel : nat) :
  forall i g g', I g -> drain fuel step rs i g = Some (Ok g') -> I g'.
Proof.
  induction fuel as [|fuel IH]; intros i g g' Hg; cbn [drain];
    destruct (Qle_bool step (logic_acc g)); try discriminate;
    try (intros [= <-]; exact Hg).
  destruct (step_logic _ _) as [g1|] eqn:Hstep; [|discriminate].
  apply IH. eapply I_tick; [|exact Hstep]. apply I_acc, Hg.
Qed.

Lemma run_frame_inv (fuel : nat) (f : Frame) (g g' : Game.t) (b : bool) :
  I g -> run_frame fuel f g = Some (Ok (g', b)) -> I g'.
Proof.
  intros Hg. unfold run_frame. destruct (state g).
  - unfold menu_loop.
    destruct (menu_events _ _ _ _) as [[g1 ret]|e] eqn:He; [|discriminate].
    pose proof (menu_events_inv _ _ _ _ _ _ Hg He) as H1.
    cbn [mbind result_bind]. destruct ret; intros [= <- _]; exact H1.
  - unfold play_loop.
    destruct (play_events _ _ _ _) as [g1 ret] eqn:He.
    pose proof (play_events_inv _ _ _ _ _ _ Hg He) as H1.
    destruct ret; [intros [= <- _]; exact H1|].
    destruct (Qeq_bool _ _); [discriminate|].
    destruct (drain _ _ _ _ _) as [[g2|]|] eqn:Hd; try discriminate.
    intros [= <- _]. apply (drain_inv _ _ _ _ _ _ (I_acc _ _ H1) Hd).
  - unfold pause_loop.
    destruct (pause_events _ _) as [g1 ret] eqn:He.
    pose proof (pause_events_inv _ _ _ _ Hg He) as H1.
    destruct ret; intros [= <- _]; exact H1.
  - unfold gameover_loop.
    destruct (gameover_events _ _ _ _) as [g1 ret] eqn:He.
    pose proof (gameover_events_inv _ _ _ _ _ _ Hg He) as H1.
    destruct ret; intros [= <- _]; exact H1.
Qed.

Lemma reachable_invariant (g : Game.t) : reachable g -> I g.
Proof.
  induction 1 as [|g fuel f g' _ IH Hf]; [apply I_init|].
  apply (run_frame_inv _ _ _ _ _ IH Hf).
Qed.

End Invariant.

(** ** What a tick does to the snake, the score, the rate and the food *)

Lemma step_logic_has_head (r : Rand) (g g' : Game.t) :
  step_logic r g = Ok g' -> exists h, Snake.head (snake g) = Ok h.
Proof.
  rewrite step_logic_stages. unfold Snake.next_head.
  destruct (Snake.head (snake g)) as [h|]; [eauto|discriminate].
Qed.

Lemma manage_food_menu (r : Rand) (k : option Kind) (g : Game.t) :
  menu_index (manage_food r k g) = menu_index g.
Proof.
  unfold manage_food.
  repeat match goal with
         | |- context [spawn_food ?d ?b ?g0] =>
             let H := fresh "H" in
             pose proof (spawn_food_frame d b g0) as H; simpl in H;
             let g1 := fresh "g" in
             set (g1 := spawn_food d b g0) in *; clearbody g1
         end.
  repeat case_match; simpl; intuition congruence.
Qed.

Lemma tick_finish_menu (r : Rand) (k : option Kind) (g : Game.t) :
  menu_index (tick_finish r k g) = menu_index g
  /\ food (tick_finish r k g) = food (manage_food r k g).
Proof.
  unfold tick_finish. cbv zeta.
  destruct (_ >? _); cbn; rewrite manage_food_menu; split; reflexivity.
Qed.

(** The snake and the score after a tick: untouched at the wall, and
    otherwise the body is [moved_body] and the score is raised by what was
    eaten; the collision exits and the completed tick agree on this. *)
Lemma step_logic_snake (r : Rand) (g g' : Game.t) :
  step_logic r g = Ok g' ->
  exists h k,
    Snake.head (snake g) = Ok h
    /\ k = eaten (tick_cell (wrap_on g)
                    (h.1 + (Snake.dir (snake g)).1,
                     h.2 + (Snake.dir (snake g)).2)) g
    /\ mode g' = mode g /\ menu_index g' = menu_index g
    /\ ((snake g' = snake g /\ score g' = score g
         /\ current_fps g' = current_fps g /\ food g' = food g)
        \/ (Snake.dir (snake g') = Snake.dir (snake g)
            /\ Snake.body (snake g')
               = moved_body k h (Snake.dir (snake g))
                   (Snake.body (snake g))
            /\ score g' = score (tick_scored k g)
            /\ ((current_fps g' = current_fps g /\ food g' = food g)
                \/ (current_fps g' = speed_for (mode g) (score g')
                    /\ exists g1, food g1 = food g
                                  /\ food g' = food (manage_food r k g1))))).
Proof.
  intros Hstep. destruct (step_logic_has_head _ _ _ Hstep) as [h Hh].
  destruct (step_logic_forms r g h Hh)
    as (k & s2 & g0 & Hk & Hstep0 & Hdir & Hbody & Hcases).
  rewrite Hstep in Hstep0. injection Hstep0 as <-.
  exists h, k. split; [exact Hh|]. split; [exact Hk|].
  pose proof (tick_scored_frame k g) as Hsc. cbv zeta in Hsc.
  destruct Hsc as (Hm & _ & _ & _ & _ & Hf & _ & _ & Hfps & _).
  assert (Hmi : menu_index (tick_scored k g) = menu_index g)
    by (destruct k as [[|]|]; reflexivity).
  destruct Hcases as [(_ & _ & ->)|(_ & [(_ & ->)|(_ & ->)])].
  - split; [reflexivity|]. split; [reflexivity|]. left. repeat split.
  - split; [exact Hm|]. split; [exact Hmi|]. right.
    split; [exact Hdir|]. split; [exact Hbody|]. split; [reflexivity|].
    left. split; [exact Hfps|exact Hf].
  - pose proof (tick_finish_frame r k (set_snake s2 (tick_scored k g)))
      as Hfin. cbv zeta in Hfin.
    destruct Hfin as (Hm' & _ & _ & Hsn & Hsc & _ & Hfps').
    destruct (tick_finish_menu r k (set_snake s2 (tick_scored k g)))
      as [Hmi' Hfood'].
    split; [rewrite Hm'; exact Hm|]. split; [rewrite Hmi'; exact Hmi|].
    right. rewrite Hsn. cbn [snake set_snake].
    split; [exact Hdir|]. split; [exact Hbody|].
    split; [rewrite Hsc; reflexivity|].
    right. split.
    + rewrite Hfps', Hsc. cbn [mode score set_snake]. rewrite Hm.
      reflexivity.
    + exists (set_snake s2 (tick_scored k g)).
      split; [exact Hf|exact Hfood'].
Qed.

(** ** Invariants of the reachable states *)

Lemma menu_change_value_frame (forward : bool) (g g' : Game.t) :
  menu_change_value forward g = Ok g' ->
  snake g' = snake g /\ score g' = score g /\ food g' = food g
  /\ menu_index g' = menu_index g
  /\ ((mode g' = mode g /\ current_fps g' = current_fps g)
      \/ current_fps g' = BASE_FPS (mode g')).
Proof.
  unfold menu_change_value.
  destruct (py_index menu_items (menu_index g)) as [label|]; [|discriminate].
  cbn [mbind result_bind].
  destruct label.
  - intros [= <-]. repeat split; left; split; reflexivity.
  - destruct (py_index mode_values _) as [m|]; [|discriminate].
    cbn [mbind result_bind]. intros [= <-].
    repeat split; right; reflexivity.
  - intros [= <-]. repeat split; left; split; reflexivity.
  - intros [= <-]. repeat case_match; repeat split; left; split; reflexivity.
  - intros [= <-]. repeat split; left; split; reflexivity.
Qed.

Lemma start_snake_body :
  Snake.body (Snake.init (GRID_W / 2, GRID_H / 2) 3 RIGHT)
  = [(14, 12); (15, 12); (16, 12)].
Proof. reflexivity. Qed.

Lemma start_has_free_cells :
  free_cells (Snake.init (GRID_W / 2, GRID_H / 2) 3 RIGHT) <> [].
Proof. intros H. vm_compute in H. discriminate H. Qed.

(** The food that [reset_run] leaves: present, on the grid, and not on the
    start snake. *)
Lemma reset_run_fed (d : Draw) (b : bool) (g : Game.t) :
  exists f, food (reset_run d b g) = Some f /\ in_grid (pos f)
            /\ (pos f ∉ [(14, 12); (15, 12); (16, 12)]).
Proof.
  assert (Hset : forall v g0, food (set_best v g0) = food g0)
    by reflexivity.
  assert (Hsn : forall s g0,
             snake (set_food None
                      (set_game_over_reason ""
                         (set_logic_acc 0
                            (set_current_fps
                               (BASE_FPS (mode (set_score 0 (set_snake s g0))))
                               (set_score 0 (set_snake s g0)))))) = s)
    by reflexivity.
  unfold reset_run. cbv zeta. rewrite Hset.
  match goal with
  | |- context [spawn_food d true ?g0] =>
      destruct (spawn_food_places d true g0) as (f & Hf & Hin & Hout & _)
  end.
  - rewrite Hsn. apply start_has_free_cells.
  - rewrite Hsn, start_snake_body in Hout. eauto.
Qed.

Lemma spawn_food_fed (d : Draw) (b : bool) (g : Game.t) :
  fed g -> fed (spawn_food d b g).
Proof.
  intros Hg.
  destruct (free_cells (snake g)) as [|c0 l] eqn:Hfree.
  - unfold spawn_food. rewrite Hfree. exact Hg.
  - destruct (spawn_food_places d b g) as (f & Hf & Hin & _).
    + rewrite Hfree. discriminate.
    + exists f. auto.
Qed.

Lemma manage_food_fed (r : Rand) (k : option Kind) (g : Game.t) :
  fed g -> fed (manage_food r k g).
Proof.
  intros Hg. unfold manage_food.
  destruct k as [k|].
  - destruct (_ && _); [|apply spawn_food_fed, Hg].
    pose proof (spawn_food_fed (spawn1 r) false g Hg) as H1.
    destruct (food (spawn_food (spawn1 r) false g)) as [f|] eqn:Hf;
      [|apply spawn_food_fed, H1].
    destruct (kind f); [apply spawn_food_fed, H1|].
    destruct H1 as (f1 & Hf1 & Hin). rewrite Hf in Hf1.
    injection Hf1 as <-. eexists. split; [reflexivity|exact Hin].
  - destruct (food g) as [f|] eqn:Hf; [|exact Hg].
    destruct (_ && _); [apply spawn_food_fed, Hg|exact Hg].
Qed.

Lemma fed_food (g g' : Game.t) : food g' = food g -> fed g -> fed g'.
Proof. unfold fed. intros ->. auto. Qed.

Lemma cell_distance_step (h dv : Vec2) :
  unit_dir dv -> cell_distance (h.1 + dv.1, h.2 + dv.2) h = 1.
Proof.
  unfold unit_dir, cell_distance, UP, DOWN, LEFT, RIGHT.
  intros [ -> | [ -> | [ -> | -> ] ] ]; cbn [fst snd]; lia.
Qed.

Lemma contiguous_cons (n h : Vec2) (tl : list Vec2) :
  cell_distance n h = 1 -> contiguous (h :: tl) -> contiguous (n :: h :: tl).
Proof.
  intros Hd Hc [|i] a b; cbn [lookup list_lookup].
  - intros [= <-] [= <-]. exact Hd.
  - apply (Hc i).
Qed.

Lemma contiguous_removelast (l : list Vec2) :
  contiguous l -> contiguous (removelast l).
Proof.
  intros Hc i a b. rewrite removelast_firstn_len.
  intros Ha Hb. apply lookup_take_Some in Ha, Hb.
  apply (Hc i); tauto.
Qed.

Lemma moved_body_contiguous (k : option Kind) (h dv : Vec2)
    (tl : list Vec2) :
  unit_dir dv -> contiguous (h :: tl) ->
  contiguous (moved_body k h dv (h :: tl)).
Proof.
  intros Hd Hc.
  assert (H1 : contiguous ((h.1 + dv.1, h.2 + dv.2) :: h :: tl))
    by (apply contiguous_cons; [apply cell_distance_step, Hd|exact Hc]).
  destruct k as [[|]|]; cbn [moved_body].
  - exact H1.
  - apply contiguous_cons; [|exact H1].
    apply (cell_distance_step (h.1 + dv.1, h.2 + dv.2) dv Hd).
  - apply contiguous_removelast, H1.
Qed.

Lemma moved_body_length (k : option Kind) (h dv : Vec2) (l : list Vec2) :
  l <> [] ->
  length (moved_body k h dv l)
  = (length l + match k with
                | None => 0
                | Some KNormal => 1
                | Some KGold => 2
                end)%nat.
Proof.
  intros Hne. destruct l as [|x l]; [contradiction|].
  destruct k as [[|]|]; cbn [moved_body length]; try lia.
  rewrite removelast_firstn_len, length_take. cbn [length Init.Nat.pred].
  unfold Vec2 in *. lia.
Qed.

Lemma turn_unit_dir (d : Vec2) (s : Snake.t) :
  unit_dir d -> unit_dir (Snake.dir s) -> unit_dir (Snake.dir (Snake.turn d s)).
Proof.
  intros Hd Hs. unfold Snake.turn. destruct (opposite _ _); assumption.
Qed.

(** The nine operations keep the four invariants. *)

Lemma grown_ops :
  (forall mode0 wrap0 cfg_sound cfg_records mixer_ok d,
      wf (Game.init mode0 wrap0 cfg_sound cfg_records mixer_ok d)
      /\ grown (Game.init mode0 wrap0 cfg_sound cfg_records mixer_ok d))
  /\ (forall d b g, wf g /\ grown g ->
                    wf (reset_run d b g) /\ grown (reset_run d b g))
  /\ (forall r g g', wf g /\ grown g -> step_logic r g = Ok g' ->
                     wf g' /\ grown g').
Proof.
  assert (Hreset : forall d b g, grown (reset_run d b g)).
  { intros d b g. pose proof (reset_run_fields d b g) as H. cbv zeta in H.
    destruct H as (_ & _ & _ & _ & _ & _ & _ & _ & _ & Hsc & _ & _ & _ & Hs).
    unfold grown. rewrite Hs, Hsc, start_snake_body. cbn [length]. lia. }
  split; [|split].
  - intros. split; [apply init_wf|apply Hreset].
  - intros d b g _. split; [apply reset_run_wf|apply Hreset].
  - intros r g g' [Hwf [Hlen Hsc]] Hstep.
    destruct (step_logic_ok r g Hwf) as (g0 & Hstep0 & Hwf' & _).
    rewrite Hstep in Hstep0. injection Hstep0 as <-.
    split; [exact Hwf'|].
    destruct (step_logic_snake _ _ _ Hstep)
      as (h & k & Hh & Hk & _ & _ & [(Hs & Hsc' & _)|(_ & Hb & Hsc' & _)]).
    + unfold grown. rewrite Hs, Hsc'. split; assumption.
    + unfold grown. rewrite Hb, Hsc'.
      rewrite moved_body_length by apply (wf_body _ Hwf).
      assert (Hng : k <> Some KGold)
        by (rewrite Hk; apply wf_eats_no_gold, Hwf).
      destruct k as [[|]|]; [|contradiction|];
        unfold tick_scored, SCORE_NORMAL; cbn [score set_score];
        split; lia.
Qed.

Lemma fed_ops :
  (forall d b g, fed (reset_run d b g))
  /\ (forall r g g', fed g -> step_logic r g = Ok g' -> fed g').
Proof.
  split.
  - intros d b g. destruct (reset_run_fed d b g) as (f & Hf & Hin & _).
    exists f. auto.
  - intros r g g' Hg Hstep.
    destruct (step_logic_snake _ _ _ Hstep)
      as (h & k & _ & _ & _ & _
          & [(_ & _ & _ & Hf)
            |(_ & _ & _ & [(_ & Hf)|(_ & g1 & Hf1 & Hf)])]).
    + apply (fed_food _ _ Hf Hg).
    + apply (fed_food _ _ Hf Hg).
    + apply (fed_food _ _ Hf).
      apply manage_food_fed, (fed_food _ _ Hf1 Hg).
Qed.

Lemma base_below_cap (m : Mode) : (BASE_FPS m <= MAX_FPS_CAP m)%Q.
Proof. destruct m; simpl; lra. Qed.

Lemma tuned_ops :
  (forall d b g, 0 <= menu_index g < 5 -> tuned (reset_run d b g))
  /\ (forall forward g g',
         tuned g -> menu_change_value forward g = Ok g' -> tuned g')
  /\ (forall r g g', tuned g -> step_logic r g = Ok g' -> tuned g').
Proof.
  split; [|split].
  - intros d b g Hmi.
    pose proof (reset_run_fields d b g) as H. cbv zeta in H.
    destruct H as (Hm & _ & _ & _ & Hi & _ & _ & _ & _ & _ & Hfps & _).
    unfold tuned. rewrite Hfps, Hm, Hi.
    split; [|exact Hmi]. pose proof (base_below_cap (mode g)). lra.
  - intros fw g g' [Hr Hmi] Hc.
    destruct (menu_change_value_frame _ _ _ Hc)
      as (_ & _ & _ & Hi & [[Hm Hfps]|Hfps]);
      unfold tuned; rewrite Hi, Hfps; (split; [|exact Hmi]).
    + rewrite Hm. exact Hr.
    + pose proof (base_below_cap (mode g')). lra.
  - intros r g g' [Hr Hmi] Hstep.
    destruct (step_logic_snake _ _ _ Hstep)
      as (h & k & _ & _ & Hm & Hi
          & [(_ & _ & Hfps & _)
            |(_ & _ & _ & [(Hfps & _)|(Hfps & _)])]);
      unfold tuned; rewrite Hi, Hm, Hfps; (split; [|exact Hmi]);
      try exact Hr.
    apply speed_for_bounds.
Qed.

Lemma on_track_ops :
  (forall d b g, on_track (reset_run d b g))
  /\ (forall key g, on_track g -> on_track (handle_turn_keys key g))
  /\ (forall r g g', on_track g -> step_logic r g = Ok g' -> on_track g').
Proof.
  split; [|split].
  - intros d b g. pose proof (reset_run_fields d b g) as H. cbv zeta in H.
    destruct H as (_ & _ & _ & _ & _ & _ & _ & _ & _ & _ & _ & _ & _ & Hs).
    unfold on_track. rewrite Hs, start_snake_body. split.
    + right. right. right. reflexivity.
    + intros [|[|[|i]]] a b0; cbn; try discriminate;
        intros [= <-] [= <-]; reflexivity.
  - intros key g [Hd Hc]. unfold on_track.
    destruct key; cbn [handle_turn_keys snake set_snake];
      try (split; assumption);
      rewrite turn_body; (split; [|exact Hc]);
      apply turn_unit_dir; try exact Hd; unfold unit_dir; auto.
  - intros r g g' [Hd Hc] Hstep.
    destruct (step_logic_snake _ _ _ Hstep)
      as (h & k & Hh & _ & _ & _ & [(Hs & _)|(Hdir & Hb & _)]).
    + unfold on_track. rewrite Hs. split; assumption.
    + unfold on_track. rewrite Hdir, Hb. split; [exact Hd|].
      destruct (head_nonempty _ _ Hh) as [tl Htl]. rewrite Htl in *.
      apply moved_body_contiguous; assumption.
Qed.

Lemma handle_turn_keys_frame (key : Key) (g : Game.t) :
  food (handle_turn_keys key g) = food g
  /\ score (handle_turn_keys key g) = score g
  /\ mode (handle_turn_keys key g) = mode g
  /\ current_fps (handle_turn_keys key g) = current_fps g
  /\ menu_index (handle_turn_keys key g) = menu_index g
  /\ Snake.body (snake (handle_turn_keys key g)) = Snake.body (snake g).
Proof.
  destruct key; cbn [handle_turn_keys]; repeat split;
    cbn [snake set_snake]; apply turn_body.
Qed.

(** ** Eating, on the ticks of a run *)









(** X10. In every reachable state the snake has at least its three
    initial cells and the score is ten times the number of cells gained
    since the start of the run: score = 10 * (length - 3).  In particular
    the score is never negative. *)
Theorem reachable_score_counts_growth (g : Game.t) :
  reachable g ->
  (3 <= length (Snake.body (snake g)))%nat
  /\ score g = 10 * (Z.of_nat (length (Snake.body (snake g))) - 3)
  /\ 0 <= score g.
Proof.
  intros Hg.
  assert (H : wf g /\ grown g).
  { revert g Hg.
    destruct grown_ops as (Hinit & Hreset & Htick).
    apply reachable_invariant.
    - exact Hinit.
    - exact Hreset.
    - intros st g [Hw Hgr].
      destruct (quiet_set_state st g Hw) as [H _]. split; [exact H|exact Hgr].
    - intros key g [Hw [Hlen Hsc]].
      destruct (quiet_turn_keys key g Hw) as [H _]. split; [exact H|].
      destruct (handle_turn_keys_frame key g) as (_ & Hs & _ & _ & _ & Hb).
      unfold grown. rewrite Hb, Hs. split; assumption.
    - intros g [Hw Hgr].
      destruct (quiet_mute_key g Hw) as [H _]. split; [exact H|exact Hgr].
    - intros v g [Hw Hgr] _. split; [|exact Hgr].
      destruct Hw. split; assumption.
    - intros fw g g' [Hw [Hlen Hsc]] Hc.
      destruct (menu_change_value_ok _ _ _ Hw Hc) as [H _].
      split; [exact H|].
      destruct (menu_change_value_frame _ _ _ Hc) as (Hs & Hs' & _).
      unfold grown. rewrite Hs, Hs'. split; assumption.
    - intros v g [Hw Hgr]. split; [|exact Hgr].
      destruct Hw. split; assumption.
    - exact Htick. }
  destruct H as [_ [Hlen Hsc]]. split; [exact Hlen|]. split; [exact Hsc|].
  lia.
Qed.

(** X11. In every reachable state there is a food, and it lies on a cell
    of the grid: the food slot is never empty between frames. *)
Theorem reachable_food_on_grid (g : Game.t) :
  reachable g -> exists f, food g = Some f /\ in_grid (pos f).
Proof.
  revert g. destruct fed_ops as (Hreset & Htick).
  apply (reachable_invariant fed).
  - intros. apply Hreset.
  - intros. apply Hreset.
  - intros st g Hg. exact Hg.
  - intros key g Hg.
    destruct (handle_turn_keys_frame key g) as (Hf & _).
    apply (fed_food _ _ Hf Hg).
  - intros g Hg. exact Hg.
  - intros v g Hg _. exact Hg.
  - intros fw g g' Hg Hc.
    destruct (menu_change_value_frame _ _ _ Hc) as (_ & _ & Hf & _).
    apply (fed_food _ _ Hf Hg).
  - intros v g Hg. exact Hg.
  - exact Htick.
Qed.

Lemma reachable_tuned (g : Game.t) : reachable g -> tuned g.
Proof.
  revert g. destruct tuned_ops as (Hreset & Hchange & Htick).
  apply (reachable_invariant tuned).
  - intros. unfold Game.init. apply Hreset. cbn [menu_index]. lia.
  - intros d b g [_ Hmi]. apply Hreset, Hmi.
  - intros st g Hg. exact Hg.
  - intros key g [Hr Hmi].
    destruct (handle_turn_keys_frame key g) as (_ & _ & Hm & Hfps & Hi & _).
    unfold tuned. rewrite Hm, Hfps, Hi. split; assumption.
  - intros g Hg. exact Hg.
  - intros v g [Hr _] Hv. split; [exact Hr|exact Hv].
  - exact Hchange.
  - intros v g Hg. exact Hg.
  - exact Htick.
Qed.

(** X12. In every reachable state the tick rate lies between the base
    rate and the ceiling of the mode in force (so it is at least 8 and
    [1 / current_fps] is a positive step), and the menu cursor is on one
    of the five items. *)
Theorem reachable_rate_in_bounds (g : Game.t) :
  reachable g ->
  (BASE_FPS (mode g) <= current_fps g <= MAX_FPS_CAP (mode g))%Q
  /\ (8 <= current_fps g)%Q
  /\ 0 <= menu_index g < 5.
Proof.
  intros Hg. destruct (reachable_tuned g Hg) as [Hr Hmi].
  split; [exact Hr|]. split; [|exact Hmi].
  destruct (mode g); simpl in Hr; lra.
Qed.

(** X13. In every reachable state the snake heads in one of the four
    directions UP, DOWN, LEFT, RIGHT, and its stored body is a path:
    every cell is exactly one grid step away from the cell before it. *)
Theorem reachable_snake_is_path (g : Game.t) (i : nat) (a b : Vec2) :
  reachable g ->
  Snake.body (snake g) !! i = Some a ->
  Snake.body (snake g) !! S i = Some b ->
  cell_distance a b = 1
  /\ (Snake.dir (snake g) = UP \/ Snake.dir (snake g) = DOWN
      \/ Snake.dir (snake g) = LEFT \/ Snake.dir (snake g) = RIGHT).
Proof.
  intros Hg Ha Hb.
  assert (H : on_track g).
  { clear Ha Hb. revert g Hg.
    destruct on_track_ops as (Hreset & Hturn & Htick).
    apply (reachable_invariant on_track).
    - intros. apply Hreset.
    - intros. apply Hreset.
    - intros st g Hg. exact Hg.
    - exact Hturn.
    - intros g Hg. exact Hg.
    - intros v g Hg _. exact Hg.
    - intros fw g g' [Hd Hc] Hch.
      destruct (menu_change_value_frame _ _ _ Hch) as (Hs & _).
      unfold on_track. rewrite Hs. split; assumption.
    - intros v g Hg. exact Hg.
    - exact Htick. }
  destruct H as [Hd Hc]. split; [apply (Hc i a b Ha Hb)|exact Hd].
Qed.

(** The drain loop of a frame ends, with a tick count that does not depend
    on the fuel. *)
Lemma play_loop_step_total (f : Frame) (g g1 : Game.t) :
  wf g ->
  play_events (reset_draw f) 0 (events f) g = (g1, None) ->
  (0 < current_fps g1)%Q ->
  exists (n : nat) (g' : Game.t),
    forall fuel, (n <= fuel)%nat ->
                 play_loop fuel f g = Some (Ok (g', true)).
Proof.
  intros Hwf Hev Hfps.
  destruct (play_events_quiet _ _ _ _ _ _ Hwf Hev) as (Hw1 & _).
  set (g2 := set_logic_acc (logic_acc g1 + inject_Z (tick_ms f) / 1000)%Q g1).
  assert (Hw2 : wf g2) by (destruct Hw1; split; assumption).
  assert (Hstep : (0 < 1 / current_fps g1)%Q).
  { unfold Qdiv. rewrite Qmult_1_l. apply Qinv_lt_0_compat, Hfps. }
  destruct (fuel_bound (logic_acc g2) _ Hstep) as [k Hk].
  destruct (drain_total _ (tick_rand f) Hstep k 0%nat g2 Hw2 Hk)
    as (n & g' & Hfuel & _).
  exists n, g'. intros fuel Hle. unfold play_loop. rewrite Hev. fold g2.
  assert (Hnz : Qeq_bool (current_fps g2) 0 = false).
  { destruct (Qeq_bool (current_fps g2) 0) eqn:E; [|reflexivity].
    apply Qeq_bool_eq in E. cbn in E. lra. }
  rewrite Hnz. change (current_fps g2) with (current_fps g1).
  rewrite (Hfuel fuel Hle). reflexivity.
Qed.

(** ** Frames never fail *)

Lemma py_index_ok {A} (l : list A) (i : Z) :
  0 <= i < Z.of_nat (length l) -> exists a, py_index l i = Ok a.
Proof.
  intros Hi. unfold py_index.
  destruct (Z.ltb_spec i 0); [lia|].
  destruct (Z.ltb_spec i 0); [lia|].
  destruct (Z.leb_spec (Z.of_nat (length l)) i); [lia|]. cbn [orb].
  destruct (l !! Z.to_nat i) as [a|] eqn:Hl; [eauto|].
  apply lookup_ge_None in Hl. lia.
Qed.

Lemma menu_change_value_total (forward : bool) (g : Game.t) :
  0 <= menu_index g < 5 -> exists g', menu_change_value forward g = Ok g'.
Proof.
  intros Hi. unfold menu_change_value.
  destruct (py_index_ok menu_items (menu_index g) Hi) as [label ->].
  cbn [mbind result_bind]. destruct label; eauto.
  destruct (py_index_ok mode_values
              ((mode_index (mode g) + delta forward)
               `mod` Z.of_nat (length mode_values))) as [m ->];
    [apply Z.mod_pos_bound; reflexivity|].
  cbn [mbind result_bind]. eauto.
Qed.

Lemma menu_events_total (draws : nat -> Draw) (evs : list Event) :
  forall i g,
    0 <= menu_index g < 5 ->
    exists g' ret, menu_events draws i evs g = Ok (g', ret).
Proof.
  induction evs as [|e evs IH]; intros i g Hi; cbn [menu_events]; [eauto|].
  assert (Hmod : forall x, 0 <= x `mod` Z.of_nat (length menu_items) < 5)
    by (intros x; apply Z.mod_pos_bound; reflexivity).
  assert (Hchg : forall fw,
             exists g' ret,
               (g0 ← menu_change_value fw g; menu_events draws (S i) evs g0)
               = Ok (g', ret)).
  { intros fw. destruct (menu_change_value_total fw g Hi) as [g0 Hc].
    rewrite Hc. cbn [mbind result_bind]. apply IH.
    destruct (menu_change_value_frame _ _ _ Hc) as (_ & _ & _ & -> & _).
    exact Hi. }
  assert (Hret :
            exists g' ret,
              (label ← py_index menu_items (menu_index g);
               match label with
               | Start =>
                   Ok (set_state Playing (reset_run (draws i) true g),
                       Some true)
               | QuitItem => Ok (g, Some false)
               | _ => menu_events draws (S i) evs g
               end) = Ok (g', ret)).
  { destruct (py_index_ok menu_items (menu_index g) Hi) as [label ->].
    cbn [mbind result_bind]. destruct label; eauto. }
  destruct e as [|key|]; [eauto| |apply IH, Hi].
  destruct key; try (apply IH, Hi); try apply Hchg; try apply Hret; eauto.
  - apply IH. cbn [menu_index set_menu_index]. apply Hmod.
  - apply IH. cbn [menu_index set_menu_index]. apply Hmod.
Qed.

(** X14. From every reachable state every frame returns normally: no
    loop raises (no [IndexError] from an empty deque or the menu table, no
    [ZeroDivisionError] from the step) and the drain loop ends, whatever
    the events, the clock reading and the random draws are.  [n] ticks of
    fuel are enough, and the result does not depend on the fuel. *)
Theorem reachable_frame_returns (g : Game.t) (f : Frame) :
  reachable g ->
  exists (n : nat) (g' : Game.t) (b : bool),
    forall fuel, (n <= fuel)%nat -> run_frame fuel f g = Some (Ok (g', b)).
Proof.
  intros Hg.
  pose proof (reachable_wf g Hg) as Hwf.
  pose proof (reachable_tuned g Hg) as Htuned.
  unfold run_frame. destruct (state g).
  - destruct (menu_events_total (reset_draw f) (events f) 0 g
                (proj2 Htuned)) as (g' & ret & He).
    unfold menu_loop. rewrite He. cbn [mbind result_bind].
    exists 0%nat, g', (default true ret). intros fuel _.
    destruct ret; reflexivity.
  - destruct (play_events (reset_draw f) 0 (events f) g) as [g1 ret] eqn:He.
    destruct ret as [b|].
    + exists 0%nat, g1, b. intros fuel _. unfold play_loop. rewrite He.
      reflexivity.
    + assert (Ht1 : tuned g1).
      { destruct tuned_ops as (Hreset & _ & _).
        refine (play_events_inv tuned _ _ _ _ _ _ _ _ _ _ Htuned He).
        - intros d b0 g0 [_ Hmi]. apply Hreset, Hmi.
        - intros st g0 H0. exact H0.
        - intros key g0 [Hr Hmi].
          destruct (handle_turn_keys_frame key g0)
            as (_ & _ & Hm & Hfps & Hi & _).
          unfold tuned. rewrite Hm, Hfps, Hi. split; assumption.
        - intros g0 H0. exact H0. }
      assert (Hpos : (0 < current_fps g1)%Q).
      { destruct Ht1 as [Hr _]. destruct (mode g1); simpl in Hr; lra. }
      destruct (play_loop_step_total f g g1 Hwf He Hpos) as (n & g' & Hrun).
      exists n, g', true. exact Hrun.
  - exists 0%nat, (pause_loop f g).1, (pause_loop f g).2. intros fuel _.
    destruct (pause_loop f g). reflexivity.
  - exists 0%nat, (gameover_loop f g).1, (gameover_loop f g).2.
    intros fuel _. destruct (gameover_loop f g). reflexivity.
Qed.

(** ** Starting and ending a run *)

Lemma self_exit_fields (s2 : Snake.t) (g0 : Game.t) :
  state (to_game_over
           (set_game_over_reason "self"
              (set_snake s2 (tick_scored None g0)))) = GameOver
  /\ game_over_reason
       (to_game_over
          (set_game_over_reason "self"
             (set_snake s2 (tick_scored None g0)))) = "self"
  /\ score (to_game_over
              (set_game_over_reason "self"
                 (set_snake s2 (tick_scored None g0)))) = score g0
  /\ snake (to_game_over
              (set_game_over_reason "self"
                 (set_snake s2 (tick_scored None g0)))) = s2.
Proof. repeat split; reflexivity. Qed.

(** X15. A run that is not turned before its first tick ends at that
    tick.  [reset_run] leaves the head on the leftmost of the three start
    cells, heading right, so the first tick moves the head onto the second
    cell of the snake: it is a self collision with score 0, whatever the
    mode, the wrap setting, the previous state and the random draws. *)
Theorem fresh_run_bites_itself (r : Rand) (d : Draw) (b : bool)
    (g : Game.t) :
  exists g',
    step_logic r (reset_run d b g) = Ok g'
    /\ state g' = GameOver /\ game_over_reason g' = "self"
    /\ score g' = 0
    /\ Snake.body (snake g') = [(15, 12); (14, 12); (15, 12)].
Proof.
  pose proof (reset_run_fields d b g) as H. cbv zeta in H.
  destruct H as (_ & _ & _ & _ & _ & _ & _ & _ & _ & Hsc & _ & _ & _ & Hs).
  destruct (reset_run_fed d b g) as (f & Hf & _ & Hout).
  set (g0 := reset_run d b g) in *. clearbody g0.
  assert (Hh : Snake.head (snake g0) = Ok (14, 12))
    by (rewrite Hs; reflexivity).
  destruct (step_logic_forms r g0 (14, 12) Hh)
    as (k & s2 & g' & Hk & Hstep & _ & Hbody & Hcases).
  rewrite Hs in Hk, Hbody, Hcases.
  change (Snake.dir (Snake.init (GRID_W / 2, GRID_H / 2) 3 RIGHT))
    with RIGHT in Hk, Hbody, Hcases.
  rewrite start_snake_body in Hbody.
  assert (Hnone : k = None).
  { rewrite Hk. unfold eaten. rewrite Hf.
    case_bool_decide as Hc; [|reflexivity].
    exfalso. apply Hout. rewrite <- Hc.
    destruct (wrap_on g0); cbn;
      apply list_elem_of_further, list_elem_of_here. }
  rewrite Hnone in Hbody. cbn in Hbody.
  assert (Hhit : Snake.hits_self s2 = Ok true).
  { unfold Snake.hits_self, Snake.head. rewrite Hbody. reflexivity. }
  exists g'. split; [exact Hstep|].
  destruct Hcases as [(_ & Hwall & _)|(_ & [(_ & ->)|(Hno & _)])].
  - exfalso. apply Hwall. vm_compute.
    repeat split; (reflexivity || discriminate).
  - rewrite Hnone.
    destruct (self_exit_fields s2 g0) as (H1 & H2 & H3 & H4).
    rewrite H1, H2, H3, H4. repeat split; assumption.
  - rewrite Hhit in Hno. discriminate.
Qed.

(** X16. The tick that ends a run writes neither the records nor [best],
    nor the tick rate, nor the food: when the state changes to GameOver
    they are what they were before the tick, also when the tick has
    eaten and raised the score above [best]. *)
Theorem fatal_tick_keeps_records (r : Rand) (g g' : Game.t) :
  step_logic r g = Ok g' ->
  state g <> GameOver -> state g' = GameOver ->
  records g' = records g /\ best g' = best g
  /\ current_fps g' = current_fps g /\ food g' = food g
  /\ score g <= score g'.
Proof.
  intros Hstep Hst Hst'.
  destruct (step_logic_has_head _ _ _ Hstep) as [h Hh].
  destruct (step_logic_forms r g h Hh)
    as (k & s2 & g0 & _ & Hstep0 & _ & _ & Hcases).
  rewrite Hstep in Hstep0. injection Hstep0 as <-.
  pose proof (tick_scored_frame k g) as Hsc. cbv zeta in Hsc.
  destruct Hsc as (_ & _ & Hs & Hr & _ & Hf & Hb & _ & Hfps & Hle).
  destruct Hcases as [(_ & _ & ->)|(_ & [(_ & ->)|(_ & ->)])].
  - repeat split. cbn. lia.
  - repeat split; assumption.
  - exfalso. apply Hst.
    pose proof (tick_finish_frame r k (set_snake s2 (tick_scored k g)))
      as Hfin. cbv zeta in Hfin.
    destruct Hfin as (_ & _ & Hs' & _).
    rewrite Hs' in Hst'. cbn [state set_snake] in Hst'.
    rewrite Hs in Hst'. exact Hst'.
Qed.

(** X17. After a wall collision further ticks change nothing: the drain
    loop does not look at the state and keeps calling [step_logic], but a
    tick on the state left by the wall exit returns that same state. *)
Theorem wall_tick_is_idempotent (r r' : Rand) (g : Game.t) (n : Vec2) :
  wrap_on g = false ->
  Snake.next_head (snake g) = Ok n ->
  ~ in_grid n ->
  exists g', step_logic r g = Ok g' /\ step_logic r' g' = Ok g'.
Proof.
  intros Hw Hn Hout. apply off_grid_spec in Hout.
  exists (to_game_over (set_game_over_reason "wall" g)). split.
  - rewrite step_logic_stages, Hn, Hw. cbn [mbind result_bind negb andb].
    rewrite Hout. reflexivity.
  - rewrite step_logic_stages.
    cbn [snake wrap_on to_game_over persist set_state set_save_sound
         set_game_over_reason].
    rewrite Hn, Hw. cbn [mbind result_bind negb andb].
    rewrite Hout. reflexivity.
Qed.

(** ** Menu and sound *)

(** One step of the Mode item. *)
Lemma menu_mode_step (forward : bool) (g : Game.t) :
  menu_index g = 1 ->
  menu_change_value forward g
  = Ok (set_best
          (default 0
             (records g
              !! key_for_record (mode_after forward (mode g)) (wrap_on g)))
          (set_current_fps (BASE_FPS (mode_after forward (mode g)))
             (set_mode (mode_after forward (mode g)) g))).
Proof.
  intros Hi. unfold menu_change_value. rewrite Hi.
  change (py_index menu_items 1) with (Ok ModeItem).
  cbn [mbind result_bind].
  destruct (mode g), forward;
    match goal with
    | |- context [py_index mode_values ?i] =>
        let v := eval vm_compute in (py_index mode_values i) in
        change (py_index mode_values i) with v
    end; reflexivity.
Qed.

(** X18. The Mode item of the menu cycles through easy, normal, hard: one
    step forward and one step back return to the mode one started from,
    and so do three steps forward; every step sets the tick rate to the
    base rate of the new mode and [best] to the stored record of the new
    configuration, and leaves the records table alone. *)
Theorem menu_mode_cycles (g : Game.t) :
  menu_index g = 1 ->
  exists g1 g2 g3 gb,
    menu_change_value true g = Ok g1
    /\ menu_change_value true g1 = Ok g2
    /\ menu_change_value true g2 = Ok g3
    /\ menu_change_value false g1 = Ok gb
    /\ mode g1 <> mode g /\ mode g2 <> mode g /\ mode g2 <> mode g1
    /\ mode g3 = mode g /\ mode gb = mode g
    /\ current_fps g1 = BASE_FPS (mode g1)
    /\ best g1 = default 0 (records g !! key_for_record (mode g1) (wrap_on g))
    /\ records g1 = records g /\ wrap_on g1 = wrap_on g.
Proof.
  intros Hi.
  pose proof (menu_mode_step true g Hi) as H1.
  set (g1 := set_best _ _) in H1.
  pose proof (menu_mode_step true g1 Hi) as H2.
  set (g2 := set_best _ _) in H2.
  pose proof (menu_mode_step true g2 Hi) as H3.
  set (g3 := set_best _ _) in H3.
  pose proof (menu_mode_step false g1 Hi) as Hb.
  set (gb := set_best _ _) in Hb.
  exists g1, g2, g3, gb.
  split; [exact H1|]. split; [exact H2|]. split; [exact H3|].
  split; [exact Hb|].
  unfold g3, gb, g2, g1.
  cbn [mode wrap_on records current_fps best set_best set_current_fps
       set_mode].
  destruct (mode g); cbn [mode_after];
    repeat split; try discriminate; reflexivity.
Qed.

(** X19. The Sound item of the menu flips the displayed value
    [enabled and ok] whichever arrow is pressed, stores the new value in
    [save["sound"]], and when it switches the sound on it sets [ok] to
    true even if the mixer had failed to start. *)
Theorem menu_sound_toggles (forward : bool) (g : Game.t) :
  menu_index g = 3 ->
  exists g',
    menu_change_value forward g = Ok g'
    /\ (sound_enabled g' && sound_ok g')
       = negb (sound_enabled g && sound_ok g)
    /\ save_sound g' = (sound_enabled g' && sound_ok g')
    /\ (sound_enabled g && sound_ok g = false ->
        sound_enabled g' = true /\ sound_ok g' = true)
    /\ records g' = records g /\ mode g' = mode g /\ best g' = best g.
Proof.
  intros Hi. unfold menu_change_value. rewrite Hi.
  destruct forward, (sound_enabled g) eqn:He, (sound_ok g) eqn:Ho; cbn;
    rewrite ?He, ?Ho; cbn; eexists; (split; [reflexivity|]); cbn;
    rewrite ?He, ?Ho; repeat split; try discriminate; reflexivity.
Qed.

(** X20. The M key ([SFX.toggle] followed by [persist]) flips [enabled]
    only when the mixer is ok: with a failed mixer the sound stays off
    however often M is pressed, and with a working mixer two presses
    restore the flag.  [save["sound"]] always ends up equal to
    [enabled and ok], and [ok] is never written. *)
Theorem mute_key_toggles (g : Game.t) :
  sound_ok (mute_key g) = sound_ok g
  /\ sound_enabled (mute_key g) = (negb (sound_enabled g) && sound_ok g)
  /\ save_sound (mute_key g)
     = (sound_enabled (mute_key g) && sound_ok (mute_key g))
  /\ (sound_ok g = false -> sound_enabled (mute_key (mute_key g)) = false)
  /\ (sound_ok g = true ->
      sound_enabled (mute_key (mute_key g)) = sound_enabled g).
Proof.
  unfold mute_key, sound_toggle, persist. cbn.
  destruct (sound_enabled g), (sound_ok g); repeat split;
    try discriminate; reflexivity.
Qed.

(** X21. The menu cursor wraps around the five items: Down then Up (and
    Up then Down) return it to where it was, and five times Down go once
    around; no other attribute is written. *)
Theorem menu_cursor_wraps (draws : nat -> Draw) (i : nat) (g : Game.t) :
  0 <= menu_index g < 5 ->
  menu_events draws i [KEYDOWN K_DOWN; KEYDOWN K_UP] g = Ok (g, None)
  /\ menu_events draws i [KEYDOWN K_UP; KEYDOWN K_DOWN] g = Ok (g, None)
  /\ menu_events draws i (replicate 5 (KEYDOWN K_DOWN)) g = Ok (g, None).
Proof.
  intros Hi. destruct g as [m w st ss se so rc sn sc fps acc gr fd bs mi].
  cbn in Hi. cbn [menu_events replicate menu_index set_menu_index mode
                  wrap_on state save_sound sound_enabled sound_ok records
                  snake score current_fps logic_acc game_over_reason food
                  best menu_items length].
  assert (H : mi = 0 \/ mi = 1 \/ mi = 2 \/ mi = 3 \/ mi = 4) by lia.
  destruct H as [ -> | [ -> | [ -> | [ -> | -> ] ] ] ];
    repeat split; reflexivity.
Qed.

(** ** Instances *)

Lemma bite_state_reachable : reachable bite_state.
Proof.
  apply after_frames_reachable; [apply wrap_game_reachable|].
  vm_compute. reflexivity.
Qed.

Lemma reachable_score_counts_growth_witness :
  (3 <= length (Snake.body (snake bite_state)))%nat
  /\ score bite_state
     = 10 * (Z.of_nat (length (Snake.body (snake bite_state))) - 3)
  /\ 0 <= score bite_state.
Proof.
  apply (reachable_score_counts_growth bite_state).
  apply after_frames_reachable; [apply wrap_game_reachable|].
  vm_compute. reflexivity.
Defined.

Lemma reachable_food_on_grid_witness :
  exists f, food bite_state = Some f /\ in_grid (pos f).
Proof.
  apply (reachable_food_on_grid bite_state).
  apply after_frames_reachable; [apply wrap_game_reachable|].
  vm_compute. reflexivity.
Defined.

Lemma reachable_rate_in_bounds_witness :
  (BASE_FPS (mode bite_state) <= current_fps bite_state
   <= MAX_FPS_CAP (mode bite_state))%Q
  /\ (8 <= current_fps bite_state)%Q
  /\ 0 <= menu_index bite_state < 5.
Proof.
  apply (reachable_rate_in_bounds bite_state).
  apply after_frames_reachable; [apply wrap_game_reachable|].
  vm_compute. reflexivity.
Defined.

Lemma reachable_snake_is_path_witness :
  cell_distance (14, -2) (15, -2) = 1
  /\ (Snake.dir (snake bite_state) = UP
      \/ Snake.dir (snake bite_state) = DOWN
      \/ Snake.dir (snake bite_state) = LEFT
      \/ Snake.dir (snake bite_state) = RIGHT).
Proof.
  apply (reachable_snake_is_path bite_state 0 (14, -2) (15, -2)).
  - apply after_frames_reachable; [apply wrap_game_reachable|].
    vm_compute. reflexivity.
  - vm_compute. reflexivity.
  - vm_compute. reflexivity.
Defined.

Lemma reachable_frame_returns_witness :
  exists (n : nat) (g' : Game.t) (b : bool),
    forall fuel, (n <= fuel)%nat ->
      run_frame fuel (frame_of [KEYDOWN K_DOWN] 84 0) bite_state
      = Some (Ok (g', b)).
Proof.
  apply (reachable_frame_returns bite_state
           (frame_of [KEYDOWN K_DOWN] 84 0)).
  apply after_frames_reachable; [apply wrap_game_reachable|].
  vm_compute. reflexivity.
Defined.

Lemma fatal_tick_keeps_records_witness :
  records (after_tick tick0 (handle_turn_keys K_DOWN bite_state))
  = records (handle_turn_keys K_DOWN bite_state)
  /\ best (after_tick tick0 (handle_turn_keys K_DOWN bite_state))
     = best (handle_turn_keys K_DOWN bite_state)
  /\ current_fps (after_tick tick0 (handle_turn_keys K_DOWN bite_state))
     = current_fps (handle_turn_keys K_DOWN bite_state)
  /\ food (after_tick tick0 (handle_turn_keys K_DOWN bite_state))
     = food (handle_turn_keys K_DOWN bite_state)
  /\ score (handle_turn_keys K_DOWN bite_state)
     <= score (after_tick tick0 (handle_turn_keys K_DOWN bite_state)).
Proof.
  apply (fatal_tick_keeps_records tick0
           (handle_turn_keys K_DOWN bite_state)
           (after_tick tick0 (handle_turn_keys K_DOWN bite_state))).
  - vm_compute. reflexivity.
  - intros H. vm_compute in H. discriminate H.
  - vm_compute. reflexivity.
Defined.

Lemma wall_tick_is_idempotent_witness :
  exists g',
    step_logic tick0 wall_state = Ok g'
    /\ step_logic lucky_tick g' = Ok g'.
Proof.
  apply (wall_tick_is_idempotent tick0 lucky_tick wall_state (14, -1)).
  - vm_compute. reflexivity.
  - vm_compute. reflexivity.
  - intros H. vm_compute in H. destruct H as [_ [H _]]. apply H.
    reflexivity.
Defined.

Lemma menu_mode_cycles_witness :
  exists g1 g2 g3 gb,
    menu_change_value true mode_menu_state = Ok g1
    /\ menu_change_value true g1 = Ok g2
    /\ menu_change_value true g2 = Ok g3
    /\ menu_change_value false g1 = Ok gb
    /\ mode g1 <> mode mode_menu_state /\ mode g2 <> mode mode_menu_state
    /\ mode g2 <> mode g1
    /\ mode g3 = mode mode_menu_state /\ mode gb = mode mode_menu_state
    /\ current_fps g1 = BASE_FPS (mode g1)
    /\ best g1
       = default 0
           (records mode_menu_state
            !! key_for_record (mode g1) (wrap_on mode_menu_state))
    /\ records g1 = records mode_menu_state
    /\ wrap_on g1 = wrap_on mode_menu_state.
Proof. apply (menu_mode_cycles mode_menu_state). reflexivity. Defined.

Lemma menu_sound_toggles_witness :
  exists g',
    menu_change_value true sound_menu_state = Ok g'
    /\ (sound_enabled g' && sound_ok g')
       = negb (sound_enabled sound_menu_state && sound_ok sound_menu_state)
    /\ save_sound g' = (sound_enabled g' && sound_ok g')
    /\ (sound_enabled sound_menu_state && sound_ok sound_menu_state = false ->
        sound_enabled g' = true /\ sound_ok g' = true)
    /\ records g' = records sound_menu_state
    /\ mode g' = mode sound_menu_state /\ best g' = best sound_menu_state.
Proof. apply (menu_sound_toggles true sound_menu_state). reflexivity. Defined.

Lemma menu_cursor_wraps_witness :
  menu_events (fun _ => pick 0) 0 [KEYDOWN K_DOWN; KEYDOWN K_UP] wrap_game
  = Ok (wrap_game, None)
  /\ menu_events (fun _ => pick 0) 0 [KEYDOWN K_UP; KEYDOWN K_DOWN] wrap_game
     = Ok (wrap_game, None)
  /\ menu_events (fun _ => pick 0) 0 (replicate 5 (KEYDOWN K_DOWN)) wrap_game
     = Ok (wrap_game, None).
Proof.
  apply (menu_cursor_wraps (fun _ => pick 0) 0 wrap_game).
  vm_compute. split; [discriminate|reflexivity].
Defined.


